(** * Artifact orchestration of [examples/hf_serialization.py]

    A shallow embedding of [check_file_exists], [serialize_model],
    [load_model] and [hf_main], together with the storage adapter and
    the tensor store they drive.  Python's I/O is modelled by explicit
    state passing over a [world] that holds the artifacts and a trace of
    every access; exceptions are an outcome of every step. *)

From Stdlib Require Import NArith Lia List.
From Stdlib.Strings Require Import Byte Ascii.
From stdpp Require Import base option list gmap strings.

Set Warnings "-register-all".
Open Scope string_scope.
Open Scope list_scope.

(** ** Values *)

Abbreviation bytes := (list byte).

Global Instance byte_eq_dec : EqDecision byte := Byte.byte_eq_dec.

(** JSON-serialisable Python values ([json.dumps] / [json.loads]). *)
Inductive json :=
| JNull
| JBool (b : bool)
| JInt (z : Z)
| JStr (s : string)
| JList (l : list json)
| JDict (d : list (string * json)).

(** Numeric kinds of a tensor. *)
Inductive dtype := Float32 | Float16 | Int8 | Int16 | Int32 | Int64 | Bool8.

Global Instance dtype_eq_dec : EqDecision dtype.
Proof. solve_decision. Defined.

Record tensor := Tensor {
  t_dtype : dtype;
  t_shape : list nat;
  t_data : bytes;
}.

(** A [torch.nn.Module]: its named tensors in iteration order, and what
    [to_dict()] returns when the object has such an attribute. *)
Record module := Module_ {
  named_tensors : list (string * tensor);
  module_to_dict : option json;
}.

(** A configuration object ([PretrainedConfig], [ConfigMixin], ...):
    its attributes, and what [to_dict()] returns when it has one. *)
Record config_obj := ConfigObj {
  attrs : gmap string json;
  obj_to_dict : option json;
}.

(** The value bound to [config] inside [serialize_model]: an object, a
    [dict], or (after [config = model]) the module itself. *)
Inductive config_value :=
| ConfigObject (o : config_obj)
| ConfigDict (d : list (string * json))
| ConfigModule (m : module).

(** ** Exceptions and outcomes *)

Inductive io_error := NotFound | PermissionDenied | TransientIOError.

Inductive py_exn :=
| ValueError
| TypeError
| IndexError
| KeyError
| AssertionError
| StorageError (e : io_error)
| DuplicateTensorNameError
| CorruptArtifactError.

Inductive outcome (A : Type) :=
| Returned (a : A)
| Raised (e : py_exn).
Arguments Returned {A} a.
Arguments Raised {A} e.

(** ** The world: artifacts, adapter policy and the trace of accesses *)

Inductive event :=
| EvPathExists (p : string)          (* os.path.exists(p) *)
| EvOpenRead (p : string)            (* stream_io.open_stream(p, "rb") *)
| EvOpenWrite (p : string)           (* stream_io.open_stream(p, "wb") *)
| EvWrite (p : string) (b : bytes)   (* f.write(b) on a stream opened at p *)
| EvLocalOpen (p : string).          (* builtin open(p, "r") *)

Record world := World {
  store : gmap string bytes;
  is_local : string -> bool;
  on_missing : string -> option io_error;
  trace : list event;
}.

Definition log (e : event) (w : world) : world :=
  World (store w) (is_local w) (on_missing w) (trace w ++ [e]).

Definition set_store (s : gmap string bytes) (w : world) : world :=
  World s (is_local w) (on_missing w) (trace w).

(** ** The I/O monad: state passing with exceptions *)

Definition io (A : Type) : Type := world -> outcome A * world.

Definition io_ret {A} (a : A) : io A := fun w => (Returned a, w).

Definition io_bind {A B} (m : io A) (k : A -> io B) : io B :=
  fun w =>
    match m w with
    | (Returned a, w') => k a w'
    | (Raised e, w') => (Raised e, w')
    end.

Definition raise {A} (e : py_exn) : io A := fun w => (Raised e, w).

Definition lift {A} (o : outcome A) : io A := fun w => (o, w).

Notation "x <- m ;; k" := (io_bind m (fun x => k))
  (at level 100, m at next level, right associativity).
Notation "m ;;; k" := (io_bind m (fun _ => k))
  (at level 100, right associativity).

(** [try: body except ValueError: handler]. *)
Definition try_except_ValueError {A} (body handler : io A) : io A :=
  fun w =>
    match body w with
    | (Raised ValueError, w') => handler w'
    | r => r
    end.

(** ** Storage stream adapter *)

(** [os.path.exists(file)]. *)
Definition os_path_exists (file : string) : io bool :=
  fun w =>
    (Returned (is_local w file && bool_decide (is_Some (store w !! file))),
     log (EvPathExists file) w).

(** Modelled from the spec: [stream_io.open_stream(file, "rb")], which is
    not part of the example script.  The adapter returns a byte stream
    for the location; for a location holding nothing it either hands
    back an immediately empty stream or signals one of its errors,
    according to the [on_missing] policy of the world. *)
Definition open_stream_rb (file : string) : io bytes :=
  fun w =>
    let w' := log (EvOpenRead file) w in
    match store w !! file with
    | Some b => (Returned b, w')
    | None =>
        match on_missing w file with
        | Some e => (Raised (StorageError e), w')
        | None => (Returned [], w')
        end
    end.

(** [f.read(n)] on a freshly opened stream. *)
Definition stream_read (n : nat) (f : bytes) : bytes := take n f.

(** Modelled from the spec: [stream_io.open_stream(file, "wb")]; opening
    for writing creates the artifact, or truncates the one that is
    there. *)
Definition open_stream_wb (file : string) : io string :=
  fun w => (Returned file, set_store (<[file := []]> (store w)) (log (EvOpenWrite file) w)).

(** [f.write(b)]: append to the artifact behind the handle. *)
Definition stream_write (f : string) (b : bytes) : io unit :=
  fun w =>
    (Returned tt,
     set_store (<[f := default [] (store w !! f) ++ b]> (store w)) (log (EvWrite f b) w)).

(** Builtin [open(path, "r")] followed by reading the whole file. *)
Definition local_open_read (path : string) : io bytes :=
  fun w =>
    let w' := log (EvLocalOpen path) w in
    if is_local w path then
      match store w !! path with
      | Some b => (Returned b, w')
      | None => (Raised (StorageError NotFound), w')
      end
    else (Raised (StorageError NotFound), w').

(** ** [check_file_exists] *)

Definition check_file_exists (file : string) : io bool :=
  e <- os_path_exists file ;;
  if e then io_ret true
  else
    f <- open_stream_rb file ;;
    if decide (stream_read 1 f = []) then io_ret false else io_ret true.

(** ** Tensor store: record encoding *)

(** [TensorSerializer] and [TensorDeserializer] are not part of the
    example script; the artifact they exchange is modelled from the
    spec.  Integers of a header are 8 bytes, little endian. *)

Definition byte_of_N (n : N) : byte := default x00 (Byte.of_N n).

Fixpoint le_bytes (k : nat) (n : N) : bytes :=
  match k with
  | O => []
  | S k' => byte_of_N (n mod 256) :: le_bytes k' (n / 256)
  end.

Fixpoint le_value (bs : bytes) : N :=
  match bs with
  | [] => 0
  | b :: bs' => Byte.to_N b + 256 * le_value bs'
  end.

Definition u64 (n : nat) : bytes := le_bytes 8 (N.of_nat n).

Definition fits_u64 (n : nat) : Prop := (N.of_nat n < 2 ^ 64)%N.

Definition dtype_tag (d : dtype) : byte :=
  match d with
  | Float32 => x00 | Float16 => x01
  | Int8 => x02 | Int16 => x03 | Int32 => x04 | Int64 => x05
  | Bool8 => x06
  end.

Definition dtype_of_tag (b : byte) : option dtype :=
  match b with
  | x00 => Some Float32 | x01 => Some Float16
  | x02 => Some Int8 | x03 => Some Int16 | x04 => Some Int32 | x05 => Some Int64
  | x06 => Some Bool8
  | _ => None
  end.

(** Modelled from the spec: the header of a record of the tensor store
    (name length, name bytes, dtype tag, rank, shape dims, payload
    length). *)
Definition encode_header (name : string) (t : tensor) : bytes :=
  u64 (length (String.list_byte_of_string name)) ++ String.list_byte_of_string name
  ++ [dtype_tag (t_dtype t)]
  ++ u64 (length (t_shape t)) ++ concat (map u64 (t_shape t))
  ++ u64 (length (t_data t)).

(** Modelled from the spec: a record of the tensor store, the header
    immediately followed by the raw payload, without compression or
    padding. *)
Definition encode_record (name : string) (t : tensor) : bytes :=
  encode_header name t ++ t_data t.

(** Modelled from the spec: [TensorSerializer(path)] opens the target
    for writing. *)
Definition TensorSerializer (path : string) : io string := open_stream_wb path.

(** Modelled from the spec: the writer of the tensor store appends one
    record per tensor in iteration order, in a single pass; a repeated
    name is fatal. *)
Fixpoint write_tensors (ts : string) (seen : gset string)
    (l : list (string * tensor)) : io unit :=
  match l with
  | [] => io_ret tt
  | (name, t) :: rest =>
      if decide (name ∈ seen) then raise DuplicateTensorNameError
      else
        stream_write ts (encode_record name t) ;;;
        write_tensors ts ({[name]} ∪ seen) rest
  end.

(** Modelled from the spec: [ts.write_module(model)]. *)
Definition write_module (ts : string) (model : module) : io unit :=
  write_tensors ts ∅ (named_tensors model).

(** ** Tensor store: directory and lazy reader *)

Record tensor_record := TensorRecord {
  r_name : string;
  r_dtype : dtype;
  r_shape : list nat;
  byte_offset : nat;
  byte_length : nat;
}.

Definition take_u64 (rest : bytes) : option (nat * bytes) :=
  if decide (8 <= length rest)
  then Some (N.to_nat (le_value (take 8 rest)), drop 8 rest)
  else None.

Fixpoint take_dims (rank : nat) (rest : bytes) : option (list nat * bytes) :=
  match rank with
  | O => Some ([], rest)
  | S r =>
      match take_u64 rest with
      | Some (d, rest1) =>
          match take_dims r rest1 with
          | Some (ds, rest2) => Some (d :: ds, rest2)
          | None => None
          end
      | None => None
      end
  end.

(** Modelled from the spec: the reader parses one header at absolute
    position [pos]; the payload range must lie within what is left of
    the stream.  Returns the directory entry, the position after the
    payload and the remaining bytes. *)
Definition parse_record (pos : nat) (rest : bytes)
    : option (tensor_record * nat * bytes) :=
  match take_u64 rest with
  | None => None
  | Some (nlen, rest1) =>
      if decide (nlen <= length rest1) then
        let name := String.string_of_list_byte (take nlen rest1) in
        match drop nlen rest1 with
        | [] => None
        | tag :: rest2 =>
            match dtype_of_tag tag with
            | None => None
            | Some dt =>
                match take_u64 rest2 with
                | None => None
                | Some (rank, rest3) =>
                    match take_dims rank rest3 with
                    | None => None
                    | Some (dims, rest4) =>
                        match take_u64 rest4 with
                        | None => None
                        | Some (plen, rest5) =>
                            if decide (plen <= length rest5) then
                              let off := pos + (length rest - length rest5) in
                              Some (TensorRecord name dt dims off plen,
                                    off + plen, drop plen rest5)
                            else None
                        end
                    end
                end
            end
        end
      else None
  end.

(** Modelled from the spec: the directory is found by walking the
    headers and skipping the payloads; anything malformed is a
    [CorruptArtifactError]. *)
Fixpoint parse_directory (fuel : nat) (pos : nat) (rest : bytes)
    : outcome (list tensor_record) :=
  match rest with
  | [] => Returned []
  | _ :: _ =>
      match fuel with
      | O => Raised CorruptArtifactError
      | S fuel' =>
          match parse_record pos rest with
          | None => Raised CorruptArtifactError
          | Some (r, pos', rest') =>
              match parse_directory fuel' pos' rest' with
              | Returned rs => Returned (r :: rs)
              | Raised e => Raised e
              end
          end
      end
  end.

(** The reader object: the stream it owns, its directory and the output
    dtype requested at construction. *)
Record deserializer := Deserializer {
  d_stream : bytes;
  d_directory : list tensor_record;
  d_dtype : option dtype;
}.

(** Modelled from the spec:
    [TensorDeserializer(stream, device=..., dtype=..., lazy_load=True)];
    only the directory is parsed. *)
Definition TensorDeserializer (stream : bytes) (dt : option dtype) : io deserializer :=
  match parse_directory (length stream) 0 stream with
  | Returned rs => io_ret (Deserializer stream rs dt)
  | Raised e => raise e
  end.

Definition find_record (name : string) (rs : list tensor_record) : option tensor_record :=
  List.find (fun r => bool_decide (r_name r = name)) rs.

(** ** Library functions the script calls *)

(** [json] and [torch] primitives, kept abstract: [json_dumps v] is
    [bytes(json.dumps(v), "utf-8")]; [json_loads b] is
    [json.loads(b.decode("utf-8"))], with [None] for a [ValueError];
    [tensor_cast] is the dtype conversion of the reader and [allclose]
    the comparison [torch.allclose(_, _, atol=1e-3)]. *)
Record runtime := Runtime {
  json_dumps : json -> bytes;
  json_loads : bytes -> option json;
  tensor_cast : dtype -> tensor -> tensor;
  allclose : tensor -> tensor -> bool;
}.

(** What [from_pretrained] is pointed at: a directory holding a
    [config.json] with the given contents, or a location string. *)
Inductive pretrained_source :=
| FromDirectory (config_json : bytes)
| FromLocation (uri : string).

Record config_class := ConfigClass {
  from_pretrained : gmap string bytes -> pretrained_source -> outcome config_obj;
}.

(** A model class: its [from_config] attribute when it has one, the
    constructor applied to a config object, and the constructor applied
    to keyword arguments. *)
Record model_class := ModelClass {
  from_config : option (config_obj -> outcome module);
  init_config : config_obj -> outcome module;
  init_kwargs : list (string * json) -> outcome module;
}.

(** [obj.name = v]. *)
Definition set_attr (name : string) (v : json) (o : config_obj) : config_obj :=
  ConfigObj (<[name := v]> (attrs o)) (obj_to_dict o).

(** [hasattr(config, "to_dict")], and the result of calling it. *)
Definition to_dict_of (config : config_value) : option json :=
  match config with
  | ConfigObject o => obj_to_dict o
  | ConfigDict _ => None
  | ConfigModule m => module_to_dict m
  end.

(** ** Reader access and binding *)

Section Orchestrator.
Context (rt : runtime).

(** Modelled from the spec: materialising one directory entry reads
    its payload range, reinterprets it with the declared dtype and
    shape, and casts when an output dtype was requested. *)
Definition materialize (d : deserializer) (r : tensor_record) : tensor :=
  let raw := Tensor (r_dtype r) (r_shape r)
               (take (byte_length r) (drop (byte_offset r) (d_stream d))) in
  match d_dtype d with
  | Some dt => tensor_cast rt dt raw
  | None => raw
  end.

(** Modelled from the spec: [load_into_module] walks the slots of the
    target; a slot found in the directory receives the stored tensor, a
    slot without an entry keeps what it had. *)
Definition load_into_module (d : deserializer) (model : module) : module :=
  Module_
    (map (fun slot : string * tensor =>
            match find_record (fst slot) (d_directory d) with
            | Some r => (fst slot, materialize d r)
            | None => slot
            end)
         (named_tensors model))
    (module_to_dict model).

(** ** [serialize_model] *)

(** Lines 82-105.  Logging is left out; [f.close()] and [ts.close()]
    change nothing in this model of streams. *)
Definition serialize_model (model : module) (config : option config_value)
    (model_directory : string) (model_prefix : option string) (force : bool)
    : io unit :=
  let model_prefix :=
    match model_prefix with None => "model" | Some p => p end in
  let dir_prefix := model_directory +:+ "/" +:+ model_prefix in
  config_file_exists <- check_file_exists (dir_prefix +:+ "-config.json") ;;
  weights_file_exists <- check_file_exists (dir_prefix +:+ ".tensors") ;;
  let config :=
    match config with None => Some (ConfigModule model) | Some c => Some c end in
  match config with
  | Some config =>
      let config_path := dir_prefix +:+ "-config.json" in
      if negb config_file_exists || force then
        f <- open_stream_wb config_path ;;
        match to_dict_of config with
        | Some d => stream_write f (json_dumps rt d)
        | None =>
            match config with
            | ConfigDict d => stream_write f (json_dumps rt (JDict d))
            | _ => io_ret tt
            end
        end
      else io_ret tt
  | None => io_ret tt
  end ;;;
  if negb weights_file_exists || force then
    ts <- TensorSerializer (dir_prefix +:+ ".tensors") ;;
    write_module ts model
  else io_ret tt.

(** ** [load_model] *)

(** Lines 151-165: the branch taken when a [config_class] is given.
    The temporary directory of lines 152-156 is not a location of the
    world: the bytes read from the config stream are what its
    [config.json] holds, and [FromDirectory] hands them to
    [from_pretrained]; the write into that scratch file is not
    logged. *)
Definition model_from_config_class (config_uri : string)
    (model_class : model_class) (config_class : config_class) : io module :=
  config <-
    try_except_ValueError
      (s <- open_stream_rb config_uri ;;
       config <- (fun w => (from_pretrained config_class (store w) (FromDirectory s), w)) ;;
       io_ret (set_attr "gradient_checkpointing" (JBool true) config))
      (fun w => (from_pretrained config_class (store w) (FromLocation config_uri), w)) ;;
  let config_loader :=
    match from_config model_class with
    | Some f => f
    | None => init_config model_class
    end in
  lift (config_loader config).

(** Lines 167-175: the branch taken without a [config_class].  The
    text-mode decoding of [open(config_uri, "r")] is not told apart
    from the UTF-8 decoding of the first attempt: both go through
    [json_loads]. *)
Definition model_from_json (config_uri : string) (model_class : model_class)
    : io module :=
  config <-
    try_except_ValueError
      (s <- open_stream_rb config_uri ;;
       match json_loads rt s with
       | Some v => io_ret v
       | None => raise ValueError
       end)
      (s <- local_open_read config_uri ;;
       match json_loads rt s with
       | Some v => io_ret v
       | None => raise ValueError
       end) ;;
  match config with
  | JDict kwargs => lift (init_kwargs model_class kwargs)
  | _ => raise TypeError
  end.

(** Lines 134-189.  Timing and logging are left out. *)
Definition load_model (path_uri : string) (model_class : model_class)
    (config_class : option config_class) (model_prefix : option string)
    (dt : option dtype) : io module :=
  let model_prefix :=
    match model_prefix with None => "model" | Some p => p end in
  let config_uri := path_uri +:+ "/" +:+ model_prefix +:+ "-config.json" in
  let tensors_uri := path_uri +:+ "/" +:+ model_prefix +:+ ".tensors" in
  tensor_stream <- open_stream_rb tensors_uri ;;
  tensor_deserializer <- TensorDeserializer tensor_stream dt ;;
  model <-
    match config_class with
    | Some cc => model_from_config_class config_uri model_class cc
    | None => model_from_json config_uri model_class
    end ;;
  io_ret (load_into_module tensor_deserializer model).

(** ** [hf_main] *)

Fixpoint str_last (s : string) : option Ascii.ascii :=
  match s with
  | EmptyString => None
  | String a EmptyString => Some a
  | String _ s' => str_last s'
  end.

(** [s[:-1]] *)
Fixpoint str_drop_last (s : string) : string :=
  match s with
  | EmptyString => EmptyString
  | String _ EmptyString => EmptyString
  | String a s' => String a (str_drop_last s')
  end.

(** Line 253:
    [output_prefix[:-1] if output_prefix[-1] == "/" else output_prefix]. *)
Definition strip_output_prefix (output_prefix : string) : outcome string :=
  match str_last output_prefix with
  | None => Raised IndexError
  | Some c =>
      if decide (c = "/"%char) then Returned (str_drop_last output_prefix)
      else Returned output_prefix
  end.

Record args := Args {
  input_directory : string;
  output_prefix : string;
  validate : bool;
  force : bool;
}.

(** The [transformers] names used by [hf_main]. *)
Record transformers := Transformers {
  AutoConfig : config_class;
  AutoModelForCausalLM : model_class;
  model_from_pretrained : string -> config_obj -> dtype -> outcome module;
}.

(** [for name, param in model.named_parameters(): ...] of the
    validation step. *)
Fixpoint compare_parameters (params : list (string * tensor))
    (state_dict : list (string * tensor)) : outcome unit :=
  match params with
  | [] => Returned tt
  | (name, param) :: rest =>
      match List.find (fun kv => bool_decide (fst kv = name)) state_dict with
      | None => Raised KeyError
      | Some (_, param2) =>
          if allclose rt param param2 then compare_parameters rest state_dict
          else Raised AssertionError
      end
  end.

(** Lines 248-304.  Printing, logging and device placement are left
    out. *)
Definition hf_main (tf : transformers) (a : args) : io unit :=
  output_prefix <- lift (strip_output_prefix (output_prefix a)) ;;
  let dt := Float16 in
  model_config <-
    (fun w => (from_pretrained (AutoConfig tf) (store w)
                 (FromLocation (input_directory a)), w)) ;;
  model <- lift (model_from_pretrained tf (input_directory a) model_config dt) ;;
  serialize_model model (Some (ConfigObject model_config)) output_prefix None
    (force a) ;;;
  if validate a then
    model <- lift (model_from_pretrained tf (input_directory a) model_config dt) ;;
    model2 <- load_model output_prefix (AutoModelForCausalLM tf)
                (Some (AutoConfig tf)) None (Some dt) ;;
    lift (compare_parameters (named_tensors model) (named_tensors model2))
  else io_ret tt.

End Orchestrator.

(** ** [df_main] *)

(** The parts of a [StableDiffusionPipeline] that [df_main] uses. *)
Record pipeline := Pipeline {
  text_encoder : module;
  text_encoder_config : config_obj;
  vae : module;
  unet : module;
}.

(** The [diffusers] and [transformers] names used by [df_main]:
    [StableDiffusionPipeline.from_pretrained], the [save_pretrained] of
    the tokenizer and of the scheduler, the classes handed to
    [load_model], and the closing step that builds the pipeline from
    the three loaded models, runs the prompt and saves the image. *)
Record diffusers := Diffusers {
  pipeline_from_pretrained : gmap string bytes -> string -> outcome pipeline;
  tokenizer_save_pretrained : string -> io unit;
  scheduler_save_pretrained : string -> io unit;
  AutoencoderKL : model_class;
  UNet2DConditionModel : model_class;
  CLIPTextModel : model_class;
  CLIPTextConfig : config_class;
  run_pipeline : module -> module -> module -> io unit;
}.

Section Diffusers.
Context (rt : runtime).

(** Lines 192-245.  Printing and logging are left out; [force] keeps
    its default [False] in the three saves and [dtype] its default
    [None] in the three loads. *)
Definition df_main (df : diffusers) (a : args) : io unit :=
  let output_prefix := output_prefix a in
  pipeline <-
    (fun w => (pipeline_from_pretrained df (store w) (input_directory a), w)) ;;
  serialize_model rt (text_encoder pipeline)
    (Some (ConfigObject (text_encoder_config pipeline))) output_prefix
    (Some "encoder") false ;;;
  serialize_model rt (vae pipeline) None output_prefix (Some "vae") false ;;;
  serialize_model rt (unet pipeline) None output_prefix (Some "unet") false ;;;
  tokenizer_save_pretrained df output_prefix ;;;
  scheduler_save_pretrained df output_prefix ;;;
  if validate a then
    vae <- load_model rt output_prefix (AutoencoderKL df) None (Some "vae") None ;;
    unet <- load_model rt output_prefix (UNet2DConditionModel df) None
              (Some "unet") None ;;
    encoder <- load_model rt output_prefix (CLIPTextModel df)
                 (Some (CLIPTextConfig df)) (Some "encoder") None ;;
    run_pipeline df encoder vae unet
  else io_ret tt.

End Diffusers.

(** * Vocabulary of the statements *)

(** The location an access is at. *)
Definition event_path (e : event) : string :=
  match e with
  | EvPathExists p | EvOpenRead p | EvOpenWrite p | EvLocalOpen p => p
  | EvWrite p _ => p
  end.

(** Opening for writing, and writing. *)
Definition is_write_event (e : event) : bool :=
  match e with
  | EvOpenWrite _ | EvWrite _ _ => true
  | _ => false
  end.

(** The events a run adds to the trace. *)
Definition events_of {A} (m : io A) (w : world) : list event :=
  drop (length (trace w)) (trace (m w).2).

(** A computation is confined to the locations satisfying [P] when all
    its accesses are at such locations and everything else in the world
    is left as it was. *)
Definition confined {A} (P : string -> Prop) (m : io A) : Prop :=
  forall w,
    trace (m w).2 = trace w ++ events_of m w
    /\ Forall (fun e => P (event_path e)) (events_of m w)
    /\ (forall p, ~ P p -> store (m w).2 !! p = store w !! p)
    /\ is_local (m w).2 = is_local w
    /\ on_missing (m w).2 = on_missing w.


(** [{base}/{prefix}.tensors] and [{base}/{prefix}-config.json]. *)
Definition tensors_path (base prefix : string) : string :=
  base +:+ "/" +:+ prefix +:+ ".tensors".

Definition config_path (base prefix : string) : string :=
  base +:+ "/" +:+ prefix +:+ "-config.json".

Definition is_artifact (base prefix : string) (p : string) : Prop :=
  p = tensors_path base prefix \/ p = config_path base prefix.

(** The tensor artifact of a complete write: the records one after
    the other. *)
Definition encode_tensors (l : list (string * tensor)) : bytes :=
  concat (map (fun nt => encode_record nt.1 nt.2) l).

(** Names, ranks, dimensions and payload lengths that fit the 8-byte
    fields of a header. *)
Definition fits_record (name : string) (t : tensor) : Prop :=
  fits_u64 (length (String.list_byte_of_string name))
  /\ fits_u64 (length (t_shape t))
  /\ Forall fits_u64 (t_shape t)
  /\ fits_u64 (length (t_data t)).

(** The directory a reader is expected to find for tensors written
    from position [pos] on. *)
Fixpoint directory_of (pos : nat) (l : list (string * tensor))
    : list tensor_record :=
  match l with
  | [] => []
  | (name, t) :: rest =>
      TensorRecord name (t_dtype t) (t_shape t)
        (pos + length (encode_header name t)) (length (t_data t))
      :: directory_of (pos + length (encode_record name t)) rest
  end.

(** First tensor stored under a name. *)
Definition lookup_tensor (name : string) (l : list (string * tensor))
    : option tensor :=
  snd <$> List.find (fun kv => bool_decide (kv.1 = name)) l.

(** Result of the probe, and the accesses it logs, as functions of the
    world it runs in. *)
Definition probe (w : world) (file : string) : outcome bool :=
  (check_file_exists file w).1.

Definition probe_events (w : world) (file : string) : list event :=
  EvPathExists file ::
  (if is_local w file && bool_decide (is_Some (store w !! file)) then []
   else [EvOpenRead file]).

(** The [write] calls of a complete [write_module]. *)
Definition tensor_write_events (ts : string) (l : list (string * tensor))
    : list event :=
  map (fun nt => EvWrite ts (encode_record nt.1 nt.2)) l.

Section Vocabulary.
Context (rt : runtime).

(** The value [config] holds once line 89 has run. *)
Definition effective_config (model : module) (config : option config_value)
    : config_value :=
  match config with None => ConfigModule model | Some c => c end.

(** The [f.write] calls of lines 95-98 for it, and the bytes they leave
    in the artifact. *)
Definition config_write_calls (cv : config_value) : list bytes :=
  match to_dict_of cv with
  | Some d => [json_dumps rt d]
  | None =>
      match cv with
      | ConfigDict d => [json_dumps rt (JDict d)]
      | _ => []
      end
  end.

Definition config_payload (cv : config_value) : bytes :=
  concat (config_write_calls cv).

(** The accesses of the config step. *)
Definition config_events (cp : string) (cv : config_value) (write : bool)
    : list event :=
  if write then EvOpenWrite cp :: map (EvWrite cp) (config_write_calls cv)
  else [].

(** The world once the probes and the config step of a save are done. *)
Definition after_config (w : world) (cp tp : string) (cv : config_value)
    (c force : bool) : world :=
  World (if negb c || force then <[cp := config_payload cv]> (store w) else store w)
    (is_local w) (on_missing w)
    (trace w ++ probe_events w cp ++ probe_events w tp
       ++ config_events cp cv (negb c || force)).

(** The world in which [write_module] starts: the tensor artifact has
    just been opened for writing. *)
Definition tensors_opened (w1 : world) (tp : string) : world :=
  World (<[tp := []]> (store w1)) (is_local w1) (on_missing w1)
    (trace w1 ++ [EvOpenWrite tp]).

(** What [getattr(model_class, "from_config", model_class)] resolves
    to. *)
Definition config_loader_of (mc : model_class) : config_obj -> outcome module :=
  match from_config mc with
  | Some f => f
  | None => init_config mc
  end.


(** The config step of [load_model], whichever branch applies. *)
Definition construct_model (config_uri : string) (mc : model_class)
    (cc : option config_class) : io module :=
  match cc with
  | Some k => model_from_config_class config_uri mc k
  | None => model_from_json rt config_uri mc
  end.

(** What binding is expected to produce: a slot whose name is stored
    receives the stored tensor, cast when a dtype was requested; any
    other slot is kept. *)
Definition bind_tensors (dt : option dtype) (stored slots : list (string * tensor))
    : list (string * tensor) :=
  map (fun slot : string * tensor =>
         match lookup_tensor slot.1 stored with
         | Some t =>
             (slot.1, match dt with Some d => tensor_cast rt d t | None => t end)
         | None => slot
         end) slots.

End Vocabulary.

(** A computation is read-only when it leaves the artifacts and the
    adapter as they were and logs no opening for writing and no
    write. *)
Definition read_only {A} (m : io A) : Prop :=
  forall w,
    store (m w).2 = store w
    /\ is_local (m w).2 = is_local w
    /\ on_missing (m w).2 = on_missing w
    /\ trace (m w).2 = trace w ++ events_of m w
    /\ Forall (fun e => is_write_event e = false) (events_of m w).

(** A computation keeps the locations satisfying [P] when what they
    hold is the same after it as before. *)
Definition keeps {A} (P : string -> Prop) (m : io A) : Prop :=
  forall w p, P p -> store (m w).2 !! p = store w !! p.

(** The artifact locations of the three prefixes [df_main] saves
    under. *)
Definition is_pipeline_artifact (base : string) (p : string) : Prop :=
  is_artifact base "encoder" p \/ is_artifact base "vae" p
  \/ is_artifact base "unet" p.

(** * Concrete instances *)

(** A stand-in for the [json] module that knows the empty dict and
    [null] only, a cast that relabels the dtype, and bytewise
    comparison. *)
Definition stub_json_dumps (v : json) : bytes :=
  match v with
  | JDict [] => String.list_byte_of_string "{}"
  | _ => String.list_byte_of_string "null"
  end.

Definition stub_json_loads (b : bytes) : option json :=
  if decide (b = String.list_byte_of_string "{}") then Some (JDict [])
  else if decide (b = String.list_byte_of_string "null") then Some JNull
  else None.

Definition stub_runtime : runtime :=
  Runtime stub_json_dumps stub_json_loads
    (fun dt t => Tensor dt (t_shape t) (t_data t))
    (fun a b => bool_decide (t_data a = t_data b)).

(** Two float32 tensors of one element each, [1.0] and [0.0]; the
    module has no [to_dict]. *)
Definition example_model : module :=
  Module_ [("w1", Tensor Float32 [1] [x00; x00; x80; x3f]);
           ("b1", Tensor Float32 [1] [x00; x00; x00; x00])] None.

(** An object store holding nothing, whose adapter opens a missing
    object as an empty stream. *)
Definition empty_bucket : world :=
  World ∅ (fun _ => false) (fun _ => None) [].

(** A local file system holding nothing, where opening a missing file
    signals [NotFound]. *)
Definition empty_disk : world :=
  World ∅ (fun _ => true) (fun _ => Some NotFound) [].

(** A local directory holding nothing, which the adapter opens as an
    empty stream where a file is missing. *)
Definition empty_directory : world :=
  World ∅ (fun _ => true) (fun _ => None) [].

(** A local directory where both artifacts of prefix ["model"] are
    present. *)
Definition complete_disk : world :=
  World (<["out/model-config.json" := String.list_byte_of_string "{}"]>
           (<["out/model.tensors" := encode_tensors (named_tensors example_model)]> ∅))
    (fun _ => true) (fun _ => Some NotFound) [].

(** An object store where only the config artifact of prefix ["model"]
    is present. *)
Definition config_only_bucket : world :=
  World (<["out/model-config.json" := String.list_byte_of_string "{}"]> ∅)
    (fun _ => false) (fun _ => None) [].

(** The skeleton a model class declares before binding: the two slots,
    without payload. *)
Definition example_skeleton : module :=
  Module_ [("w1", Tensor Float32 [1] []); ("b1", Tensor Float32 [1] [])] None.

Definition example_class : model_class :=
  ModelClass None (fun _ => Returned example_skeleton)
    (fun _ => Returned example_skeleton).


(** A config class that reads any source as the empty config. *)
Definition lenient_config : config_class :=
  ConfigClass (fun _ _ => Returned (ConfigObj ∅ None)).

(** [transformers] reduced to the example: every pretrained model is
    the example module. *)
Definition example_transformers : transformers :=
  Transformers lenient_config example_class
    (fun _ _ _ => Returned example_model).

Global Instance fits_u64_dec n : Decision (fits_u64 n).
Proof. unfold fits_u64. apply _. Defined.

Global Instance fits_record_dec name t : Decision (fits_record name t).
Proof. unfold fits_record. apply _. Defined.



(** A pipeline whose three models are the example module, and
    [diffusers] reduced to it: the savers and the closing run do
    nothing. *)
Definition example_pipeline : pipeline :=
  Pipeline example_model (ConfigObj ∅ None) example_model example_model.

Definition example_diffusers : diffusers :=
  Diffusers (fun _ _ => Returned example_pipeline)
    (fun _ => io_ret tt) (fun _ => io_ret tt)
    example_class example_class example_class lenient_config
    (fun _ _ _ => io_ret tt).

(** A local directory where the six artifacts of the prefixes
    ["encoder"], ["vae"] and ["unet"] are present. *)
Definition pipeline_disk : world :=
  World (<["out/encoder-config.json" := String.list_byte_of_string "{}"]>
           (<["out/encoder.tensors" := encode_tensors (named_tensors example_model)]>
              (<["out/vae-config.json" := String.list_byte_of_string "{}"]>
                 (<["out/vae.tensors" := encode_tensors (named_tensors example_model)]>
                    (<["out/unet-config.json" := String.list_byte_of_string "{}"]>
                       (<["out/unet.tensors" := encode_tensors (named_tensors example_model)]> ∅))))))
    (fun _ => true) (fun _ => Some NotFound) [].

(** * Properties *)

(** ** Reasoning about runs *)

Lemma events_of_intro {A} (m : io A) w evs :
  trace (m w).2 = trace w ++ evs -> events_of m w = evs.
Proof.
  intros H. unfold events_of. rewrite H. by rewrite drop_app_length.
Qed.

Lemma confined_intro {A} (P : string -> Prop) (m : io A) :
  (forall w, exists evs,
      trace (m w).2 = trace w ++ evs
      /\ Forall (fun e => P (event_path e)) evs
      /\ (forall p, ~ P p -> store (m w).2 !! p = store w !! p)
      /\ is_local (m w).2 = is_local w
      /\ on_missing (m w).2 = on_missing w) ->
  confined P m.
Proof.
  intros H w. destruct (H w) as (evs & Ht & Hp & Hs & Hl & Hm).
  rewrite (events_of_intro m w evs Ht). auto.
Qed.

Lemma confined_silent {A} (P : string -> Prop) (m : io A) :
  (forall w, (m w).2 = w) -> confined P m.
Proof.
  intros H. apply confined_intro. intros w. exists []. rewrite H.
  rewrite app_nil_r. auto.
Qed.

Lemma confined_ret {A} P (a : A) : confined P (io_ret a).
Proof. by apply confined_silent. Qed.

Lemma confined_raise {A} P e : confined P (@raise A e).
Proof. by apply confined_silent. Qed.


Lemma confined_bind_post {A B} P (Q : A -> Prop) (m : io A) (k : A -> io B) :
  confined P m ->
  (forall w a, (m w).1 = Returned a -> Q a) ->
  (forall a, Q a -> confined P (k a)) ->
  confined P (io_bind m k).
Proof.
  intros Hm HQ Hk. apply confined_intro. intros w. unfold io_bind.
  destruct (Hm w) as (Ht & Hp & Hs & Hl & Ho). specialize (HQ w).
  destruct (m w) as [[a|e] w1] eqn:E; simpl in *.
  - destruct (Hk a (HQ a eq_refl) w1) as (Ht' & Hp' & Hs' & Hl' & Ho').
    exists (events_of m w ++ events_of (k a) w1).
    rewrite Ht', Ht, app_assoc. split_and!; auto.
    + apply Forall_app. auto.
    + intros p Hn. rewrite Hs', Hs; auto.
    + congruence.
    + congruence.
  - exists (events_of m w). auto.
Qed.

Lemma confined_bind {A B} P (m : io A) (k : A -> io B) :
  confined P m -> (forall a, confined P (k a)) -> confined P (io_bind m k).
Proof.
  intros Hm Hk. apply (confined_bind_post P (fun _ => True)); auto.
Qed.

Lemma confined_mono {A} (P Q : string -> Prop) (m : io A) :
  (forall p, P p -> Q p) -> confined P m -> confined Q m.
Proof.
  intros HPQ Hm w. destruct (Hm w) as (Ht & Hp & Hs & Hl & Ho).
  split_and!; auto.
  eapply Forall_impl; [exact Hp|]. simpl. auto.
Qed.


Lemma confined_os_path_exists (P : string -> Prop) p :
  P p -> confined P (os_path_exists p).
Proof.
  intros HP. apply confined_intro. intros w. exists [EvPathExists p].
  simpl. split_and!; auto.
Qed.

Lemma confined_open_stream_rb (P : string -> Prop) p :
  P p -> confined P (open_stream_rb p).
Proof.
  intros HP. apply confined_intro. intros w. exists [EvOpenRead p].
  unfold open_stream_rb.
  destruct (store w !! p); [|destruct (on_missing w p)]; simpl; split_and!; auto.
Qed.


Lemma confined_open_stream_wb (P : string -> Prop) p :
  P p -> confined P (open_stream_wb p).
Proof.
  intros HP. apply confined_intro. intros w. exists [EvOpenWrite p].
  simpl. split_and!; auto.
  intros q Hq. rewrite lookup_insert_ne; [done|]. intros ->. auto.
Qed.

Lemma confined_stream_write (P : string -> Prop) p b :
  P p -> confined P (stream_write p b).
Proof.
  intros HP. apply confined_intro. intros w. exists [EvWrite p b].
  simpl. split_and!; auto.
  intros q Hq. rewrite lookup_insert_ne; [done|]. intros ->. auto.
Qed.

Lemma confined_check_file_exists (P : string -> Prop) p :
  P p -> confined P (check_file_exists p).
Proof.
  intros HP. unfold check_file_exists.
  apply confined_bind; [by apply confined_os_path_exists|].
  intros [|]; [apply confined_ret|].
  apply confined_bind; [by apply confined_open_stream_rb|].
  intros f. case_decide; apply confined_ret.
Qed.

Lemma confined_write_tensors (P : string -> Prop) ts l :
  P ts -> forall seen, confined P (write_tensors ts seen l).
Proof.
  intros HP. induction l as [|[name t] rest IH]; intros seen; simpl.
  - apply confined_ret.
  - case_decide; [apply confined_raise|].
    apply confined_bind; [by apply confined_stream_write|].
    intros _. apply IH.
Qed.



(** ** Artifact locations *)

Lemma str_app_cons a s t : String a s +:+ t = String a (s +:+ t).
Proof. reflexivity. Qed.

Lemma str_app_assoc (s t u : string) : (s +:+ t) +:+ u = s +:+ (t +:+ u).
Proof.
  induction s as [|a s IH]; [reflexivity|].
  rewrite !str_app_cons. by rewrite IH.
Qed.

Lemma dir_prefix_tensors base prefix :
  (base +:+ "/" +:+ prefix) +:+ ".tensors" = tensors_path base prefix.
Proof. unfold tensors_path. by rewrite !str_app_assoc. Qed.

Lemma dir_prefix_config base prefix :
  (base +:+ "/" +:+ prefix) +:+ "-config.json" = config_path base prefix.
Proof. unfold config_path. by rewrite !str_app_assoc. Qed.

Lemma config_path_ne_tensors_path base prefix :
  config_path base prefix <> tensors_path base prefix.
Proof.
  rewrite <- dir_prefix_config, <- dir_prefix_tensors.
  intros H. apply (inj (String.append _)) in H. discriminate H.
Qed.

(** ** The record codec *)

Lemma encode_tensors_cons nt l :
  encode_tensors (nt :: l) = encode_record nt.1 nt.2 ++ encode_tensors l.
Proof. reflexivity. Qed.

Lemma to_N_byte_of_N (n : N) : (n < 256)%N -> Byte.to_N (byte_of_N n) = n.
Proof.
  intros Hn. unfold byte_of_N.
  destruct (Byte.of_N n) as [b|] eqn:E.
  - by apply Byte.to_of_N in E.
  - apply Byte.of_N_None_iff in E. lia.
Qed.

Lemma le_value_le_bytes k n : le_value (le_bytes k n) = (n mod 256 ^ N.of_nat k)%N.
Proof.
  revert n. induction k as [|k IH]; intros n.
  - cbn [le_bytes le_value]. change (256 ^ N.of_nat 0)%N with 1%N.
    by rewrite N.mod_1_r.
  - cbn [le_bytes le_value]. rewrite IH.
    rewrite to_N_byte_of_N by (by apply N.mod_upper_bound).
    rewrite Nat2N.inj_succ, N.pow_succ_r'.
    by rewrite N.Div0.mod_mul_r.
Qed.

Lemma length_le_bytes k n : length (le_bytes k n) = k.
Proof. revert n. induction k as [|k IH]; intros n; simpl; by rewrite ?IH. Qed.

Lemma length_u64 n : length (u64 n) = 8.
Proof. apply length_le_bytes. Qed.

Lemma le_value_u64 n : fits_u64 n -> N.to_nat (le_value (u64 n)) = n.
Proof.
  intros Hn. unfold u64. rewrite le_value_le_bytes.
  change (256 ^ N.of_nat 8)%N with (2 ^ 64)%N.
  rewrite N.mod_small by exact Hn. apply Nat2N.id.
Qed.

Lemma take_u64_u64 n rest :
  fits_u64 n -> take_u64 (u64 n ++ rest) = Some (n, rest).
Proof.
  intros Hn. unfold take_u64.
  rewrite decide_True by (rewrite length_app, length_u64; lia).
  rewrite take_app_length' by (by rewrite length_u64).
  rewrite drop_app_length' by (by rewrite length_u64).
  by rewrite le_value_u64.
Qed.

Lemma take_dims_encode dims rest :
  Forall fits_u64 dims ->
  take_dims (length dims) (concat (map u64 dims) ++ rest) = Some (dims, rest).
Proof.
  induction 1 as [|d dims Hd _ IH]; [reflexivity|].
  cbn [length map concat take_dims]. rewrite <- app_assoc.
  rewrite take_u64_u64 by done. by rewrite IH.
Qed.

Lemma dtype_of_tag_tag d : dtype_of_tag (dtype_tag d) = Some d.
Proof. by destruct d. Qed.

Lemma parse_record_encode pos name t rest :
  fits_record name t ->
  parse_record pos (encode_record name t ++ rest)
  = Some (TensorRecord name (t_dtype t) (t_shape t)
            (pos + length (encode_header name t)) (length (t_data t)),
          pos + length (encode_record name t), rest).
Proof.
  intros (Hname & Hrank & Hdims & Hlen).
  unfold parse_record, encode_record, encode_header.
  rewrite <- !app_assoc. rewrite take_u64_u64 by done.
  rewrite decide_True by (rewrite length_app; lia).
  rewrite take_app_length, drop_app_length.
  rewrite String.string_of_list_byte_of_string.
  cbn [app]. rewrite dtype_of_tag_tag.
  rewrite take_u64_u64 by done.
  rewrite take_dims_encode by done.
  rewrite take_u64_u64 by done.
  rewrite decide_True by (rewrite length_app; lia).
  rewrite drop_app_length.
  do 3 f_equal; [f_equal|].
  all: rewrite ?length_app; cbn [length]; rewrite ?length_app; lia.
Qed.

Lemma length_encode_record name t :
  length (encode_record name t)
  = length (encode_header name t) + length (t_data t).
Proof. unfold encode_record. by rewrite length_app. Qed.

Lemma length_encode_header_pos name t : 0 < length (encode_header name t).
Proof. unfold encode_header. rewrite length_app, length_u64. lia. Qed.

Lemma parse_directory_encode l :
  forall pos fuel,
    Forall (fun nt => fits_record nt.1 nt.2) l ->
    length (encode_tensors l) <= fuel ->
    parse_directory fuel pos (encode_tensors l) = Returned (directory_of pos l).
Proof.
  induction l as [|[name t] l IH]; intros pos fuel Hfits Hfuel.
  - by destruct fuel.
  - apply Forall_cons in Hfits as [Hfit Hfits].
    rewrite encode_tensors_cons in *. cbn [fst snd] in *.
    rewrite length_app, length_encode_record in Hfuel.
    pose proof (length_encode_header_pos name t) as Hpos.
    destruct (encode_record name t ++ encode_tensors l) as [|b bs] eqn:E.
    { apply (f_equal length) in E.
      rewrite length_app, length_encode_record in E. simpl in E. lia. }
    destruct fuel as [|fuel]; [lia|].
    cbn [parse_directory]. rewrite <- E.
    rewrite parse_record_encode by done.
    rewrite IH by (done || lia). reflexivity.
Qed.

Lemma find_record_directory l :
  forall pre post name,
    match find_record name (directory_of (length pre) l) with
    | Some r =>
        lookup_tensor name l
        = Some (Tensor (r_dtype r) (r_shape r)
                  (take (byte_length r)
                     (drop (byte_offset r) (pre ++ encode_tensors l ++ post))))
    | None => lookup_tensor name l = None
    end.
Proof.
  induction l as [|[n t] l IH]; intros pre post name; [reflexivity|].
  unfold find_record, lookup_tensor. cbn [directory_of List.find r_name fst].
  destruct (bool_decide (n = name)) eqn:Hn.
  - cbn [fmap option_fmap option_map snd r_dtype r_shape byte_length byte_offset].
    rewrite encode_tensors_cons. cbn [fst snd]. unfold encode_record.
    rewrite <- !app_assoc.
    rewrite (app_assoc pre), drop_app_length' by (rewrite length_app; lia).
    rewrite take_app_length. by destruct t.
  - specialize (IH (pre ++ encode_record n t) post name).
    rewrite length_app in IH. unfold find_record, lookup_tensor in IH.
    rewrite encode_tensors_cons. cbn [fst snd].
    rewrite <- !app_assoc in IH. rewrite <- !app_assoc. exact IH.
Qed.

Lemma open_stream_rb_outcome file w :
  (exists s, (open_stream_rb file w).1 = Returned s)
  \/ (exists e, (open_stream_rb file w).1 = Raised (StorageError e)).
Proof.
  unfold open_stream_rb.
  destruct (store w !! file); [|destruct (on_missing w file)]; simpl; eauto.
Qed.

(** ** The existence probe *)

Ltac case_dec :=
  match goal with
  | |- context [decide ?P] => destruct (decide P)
  end.

Lemma check_file_exists_run file w :
  check_file_exists file w
  = (probe w file,
     World (store w) (is_local w) (on_missing w) (trace w ++ probe_events w file)).
Proof.
  unfold probe, probe_events, check_file_exists, io_bind, os_path_exists,
    open_stream_rb, log, io_ret. simpl.
  destruct (is_local w file && bool_decide (is_Some (store w !! file))); simpl.
  { reflexivity. }
  destruct (store w !! file) as [b|]; simpl.
  - case_dec; simpl; by rewrite <- app_assoc.
  - destruct (on_missing w file); simpl; [by rewrite <- app_assoc|].
    try case_dec; simpl; by rewrite <- app_assoc.
Qed.

Lemma probe_trace_irrelevant s l o t t' file :
  probe (World s l o t) file = probe (World s l o t') file.
Proof.
  unfold probe, check_file_exists, io_bind, os_path_exists, open_stream_rb,
    log, io_ret. simpl.
  destruct (l file && bool_decide (is_Some (s !! file))); simpl; [done|].
  destruct (s !! file); simpl; [by case_dec|].
  destruct (o file); simpl; [done|by try case_dec].
Qed.

Lemma probe_events_no_write w file :
  Forall (fun e => is_write_event e = false) (probe_events w file).
Proof.
  unfold probe_events.
  destruct (is_local w file && _); repeat constructor.
Qed.

(** C5. The probe answers [True] when the local path exists; otherwise
    it opens the location as a stream and answers [True] when reading
    one byte yields something and [False] when it yields the empty byte
    string. *)
Theorem check_file_exists_probe file w :
  ((os_path_exists file w).1 = Returned true ->
   (check_file_exists file w).1 = Returned true)
  /\ (forall s,
        (os_path_exists file w).1 = Returned false ->
        (open_stream_rb file (os_path_exists file w).2).1 = Returned s ->
        (stream_read 1 s <> [] -> (check_file_exists file w).1 = Returned true)
        /\ (stream_read 1 s = [] -> (check_file_exists file w).1 = Returned false)).
Proof.
  unfold check_file_exists, io_bind. split.
  - intros H. destruct (os_path_exists file w) as [[e|x] w1]; simpl in *;
      [|discriminate]. injection H as ->. reflexivity.
  - intros s H Hs. destruct (os_path_exists file w) as [[e|x] w1]; simpl in *;
      [|discriminate]. injection H as ->.
    destruct (open_stream_rb file w1) as [[s'|x] w2]; simpl in *;
      [|discriminate]. injection Hs as ->.
    split; intros Hr; case_dec; simpl; congruence.
Qed.

(** ** What a save leaves behind *)

Lemma write_tensors_run ts l :
  forall seen w pre,
    store w !! ts = Some pre ->
    NoDup (map fst l) ->
    (forall n, n ∈ map fst l -> n ∉ seen) ->
    write_tensors ts seen l w
    = (Returned tt,
       World (<[ts := pre ++ encode_tensors l]> (store w)) (is_local w)
         (on_missing w) (trace w ++ tensor_write_events ts l)).
Proof.
  induction l as [|[name t] rest IH]; intros seen w pre Hpre Hnd Hseen.
  - cbn [write_tensors]. unfold io_ret, encode_tensors. cbn [map concat tensor_write_events].
    rewrite !app_nil_r. rewrite insert_id by done. by destruct w.
  - cbn [map fst] in Hnd, Hseen. apply NoDup_cons in Hnd as [Hname Hnd].
    cbn [write_tensors].
    destruct (decide (name ∈ seen)) as [Hin|_].
    { exfalso. eapply Hseen; [|exact Hin]. left. }
    unfold io_bind, stream_write at 1. rewrite Hpre.
    erewrite IH; [|cbn [store set_store log]; apply lookup_insert_eq|done|].
    + cbn [store set_store log is_local on_missing trace default].
      rewrite insert_insert_eq, encode_tensors_cons.
      unfold tensor_write_events. cbn [map fst snd].
      rewrite <- !app_assoc. reflexivity.
    + intros n Hn [->%elem_of_singleton|Hs]%elem_of_union; [done|].
      eapply Hseen; [|exact Hs]. by right.
Qed.

Section OrchestratorFacts.
Context (rt : runtime).

Lemma serialize_model_run model config base prefix force w c t :
  probe w (config_path base prefix) = Returned c ->
  probe w (tensors_path base prefix) = Returned t ->
  serialize_model rt model config base (Some prefix) force w
  = let w1 := after_config rt w (config_path base prefix) (tensors_path base prefix)
                (effective_config model config) c force in
    if negb t || force then
      write_module (tensors_path base prefix) model
        (World (<[tensors_path base prefix := []]> (store w1)) (is_local w1)
           (on_missing w1) (trace w1 ++ [EvOpenWrite (tensors_path base prefix)]))
    else (Returned tt, w1).
Proof.
  intros Hc Ht. unfold serialize_model. cbv zeta.
  rewrite dir_prefix_config, dir_prefix_tensors.
  unfold io_bind at 1. rewrite check_file_exists_run, Hc.
  unfold io_bind at 1. rewrite check_file_exists_run.
  destruct w as [s l o tr]. cbn [store is_local on_missing trace].
  rewrite (probe_trace_irrelevant s l o _ tr), Ht.
  unfold after_config, config_events, config_payload, config_write_calls,
    effective_config.
  change (probe_events (World s l o _) (tensors_path base prefix))
    with (probe_events (World s l o tr) (tensors_path base prefix)).
  set (cv := match config with Some c0 => c0 | None => ConfigModule model end).
  assert (Hcv : match config with
                | Some c0 => Some c0
                | None => Some (ConfigModule model)
                end = Some cv) by (subst cv; by destruct config).
  rewrite Hcv. clear Hcv. generalize cv. clear cv. intros cv.
  unfold TensorSerializer.
  unfold io_bind, open_stream_wb, stream_write, io_ret, set_store, log.
  destruct (negb c || force); cbn [store is_local on_missing trace].
  - destruct (to_dict_of cv) as [d|]; [|destruct cv];
      cbn [store is_local on_missing trace map concat fst snd];
      rewrite ?lookup_insert_eq, ?insert_insert_eq, ?app_nil_r;
      cbn [default from_option id app];
      destruct (negb t || force);
      cbn [store is_local on_missing trace];
      rewrite <- ?app_assoc; cbn [app]; reflexivity.
  - destruct (negb t || force); cbn [store is_local on_missing trace];
      rewrite ?app_nil_r, <- ?app_assoc; cbn [app]; reflexivity.
Qed.

Lemma confined_serialize_model model config base prefix force :
  confined (is_artifact base prefix)
    (serialize_model rt model config base (Some prefix) force).
Proof.
  assert (Hc : is_artifact base prefix (config_path base prefix)) by (by right).
  assert (Ht : is_artifact base prefix (tensors_path base prefix)) by (by left).
  unfold serialize_model. cbv zeta.
  rewrite dir_prefix_config, dir_prefix_tensors.
  apply confined_bind; [by apply confined_check_file_exists|]. intros c.
  apply confined_bind; [by apply confined_check_file_exists|]. intros t.
  apply confined_bind.
  - assert (Hw : forall cv, confined (is_artifact base prefix)
        (if negb c || force
         then f <- open_stream_wb (config_path base prefix) ;;
              match to_dict_of cv with
              | Some d => stream_write f (json_dumps rt d)
              | None =>
                  match cv with
                  | ConfigDict d => stream_write f (json_dumps rt (JDict d))
                  | _ => io_ret tt
                  end
              end
         else io_ret tt)).
    { intros cv. destruct (negb c || force); [|apply confined_ret].
      apply (confined_bind_post _ (fun f => f = config_path base prefix));
        [by apply confined_open_stream_wb| by intros w a [= <-] |].
      intros f ->. destruct (to_dict_of cv); [by apply confined_stream_write|].
      destruct cv; try apply confined_ret. by apply confined_stream_write. }
    destruct config; apply Hw.
  - intros _. destruct (negb t || force); [|apply confined_ret].
    apply (confined_bind_post _ (fun f => f = tensors_path base prefix));
      [by apply confined_open_stream_wb| by intros w a [= <-] |].
    intros ts ->. by apply confined_write_tensors.
Qed.


(** C2. Where the probes find both artifacts, a save with
    [force=False] returns without opening or writing anything and the
    store is what it was; a save with [force=True] opens both artifacts
    for writing again, leaves the config artifact holding the freshly
    dumped config, and (the tensor names being distinct) the tensor
    artifact holding the freshly encoded tensors. *)
Theorem save_skips_existing_unless_forced model config base prefix w :
  probe w (config_path base prefix) = Returned true ->
  probe w (tensors_path base prefix) = Returned true ->
  (let run := serialize_model rt model config base (Some prefix) false in
   (run w).1 = Returned tt
   /\ store (run w).2 = store w
   /\ Forall (fun e => is_write_event e = false) (events_of run w))
  /\ (let run := serialize_model rt model config base (Some prefix) true in
      EvOpenWrite (config_path base prefix) ∈ events_of run w
      /\ EvOpenWrite (tensors_path base prefix) ∈ events_of run w
      /\ store (run w).2 !! config_path base prefix
         = Some (config_payload rt (effective_config model config))
      /\ (NoDup (map fst (named_tensors model)) ->
          (run w).1 = Returned tt
          /\ store (run w).2 !! tensors_path base prefix
             = Some (encode_tensors (named_tensors model)))).
Proof.
  intros Hc Ht. split; cbv zeta.
  - rewrite (serialize_model_run _ _ _ _ _ _ _ _ Hc Ht). cbv zeta.
    cbn [negb orb fst snd]. unfold after_config, config_events.
    cbn [negb orb store]. split_and!; [done..|].
    erewrite events_of_intro; last first.
    { rewrite (serialize_model_run _ _ _ _ _ _ _ _ Hc Ht). cbv zeta.
      cbn [negb orb snd]. unfold after_config, config_events.
      cbn [negb orb trace]. reflexivity. }
    rewrite app_nil_r. apply Forall_app. split; apply probe_events_no_write.
  - rewrite (serialize_model_run _ _ _ _ _ _ _ _ Hc Ht). cbv zeta.
    cbn [negb orb]. unfold write_module.
    set (w2 := World _ _ _ _).
    pose proof (confined_write_tensors (fun p => p = tensors_path base prefix)
                  (tensors_path base prefix) (named_tensors model) eq_refl ∅ w2)
      as (Htr & _ & Hfr & _).
    assert (Hev : events_of (serialize_model rt model config base (Some prefix) true) w
                  = probe_events w (config_path base prefix)
                    ++ probe_events w (tensors_path base prefix)
                    ++ config_events rt (config_path base prefix)
                         (effective_config model config) true
                    ++ [EvOpenWrite (tensors_path base prefix)]
                    ++ events_of (write_tensors (tensors_path base prefix) ∅
                                    (named_tensors model)) w2).
    { apply events_of_intro.
      rewrite (serialize_model_run _ _ _ _ _ _ _ _ Hc Ht). cbv zeta.
      cbn [negb orb]. unfold write_module. fold w2. rewrite Htr.
      subst w2. unfold after_config. cbn [trace negb orb].
      rewrite <- !app_assoc. reflexivity. }
    rewrite Hev. split_and!.
    + unfold config_events. set_solver.
    + set_solver.
    + rewrite Hfr by apply config_path_ne_tensors_path.
      subst w2. unfold after_config. cbn [store negb orb].
      rewrite lookup_insert_ne by (intros E; symmetry in E;
        by apply config_path_ne_tensors_path in E).
      apply lookup_insert_eq.
    + intros Hnd.
      rewrite (write_tensors_run _ _ ∅ w2 []); [|subst w2; apply lookup_insert_eq|done|set_solver].
      cbn [fst snd store]. split; [done|]. apply lookup_insert_eq.
Qed.

Lemma serialize_model_writes_tensors model config base prefix force w c t :
  probe w (config_path base prefix) = Returned c ->
  probe w (tensors_path base prefix) = Returned t ->
  negb t || force = true ->
  let cp := config_path base prefix in
  let tp := tensors_path base prefix in
  let cv := effective_config model config in
  let w1 := after_config rt w cp tp cv c force in
  let tail := write_tensors tp ∅ (named_tensors model) in
  let run := serialize_model rt model config base (Some prefix) force in
  events_of run w
  = probe_events w cp ++ probe_events w tp
    ++ config_events rt cp cv (negb c || force)
    ++ [EvOpenWrite tp] ++ events_of tail (tensors_opened w1 tp)
  /\ Forall (fun e => event_path e = tp) (events_of tail (tensors_opened w1 tp))
  /\ (forall p, p <> tp -> store (run w).2 !! p = store w1 !! p)
  /\ (NoDup (map fst (named_tensors model)) ->
      (run w).1 = Returned tt
      /\ store (run w).2 !! tp = Some (encode_tensors (named_tensors model))).
Proof.
  intros Hc Ht Hw. cbv zeta.
  set (cp := config_path base prefix). set (tp := tensors_path base prefix).
  set (cv := effective_config model config).
  set (w1 := after_config rt w cp tp cv c force).
  pose proof (serialize_model_run model config base prefix force w c t Hc Ht)
    as Hrun. cbv zeta in Hrun. rewrite Hw in Hrun.
  fold cp tp cv w1 in Hrun. fold (tensors_opened w1 tp) in Hrun.
  unfold write_module in Hrun.
  pose proof (confined_write_tensors (fun p => p = tp) tp (named_tensors model)
                eq_refl ∅ (tensors_opened w1 tp)) as (Htr & Hpaths & Hfr & _).
  split_and!.
  - apply events_of_intro. rewrite Hrun, Htr. unfold tensors_opened, w1, after_config.
    cbn [trace]. rewrite <- !app_assoc. reflexivity.
  - exact Hpaths.
  - intros p Hp. rewrite Hrun, Hfr by done. unfold tensors_opened. cbn [store].
    by rewrite lookup_insert_ne.
  - intros Hnd. rewrite Hrun.
    rewrite (write_tensors_run _ _ ∅ (tensors_opened w1 tp) []);
      [|apply lookup_insert_eq|done|set_solver].
    cbn [fst snd store]. split; [done|]. apply lookup_insert_eq.
Qed.

(** C3. Where the probes find the config artifact but not the tensor
    artifact, a save with [force=False] opens and writes the tensor
    artifact only: every write it logs is at the tensor location, the
    config artifact keeps the contents it had, and (the tensor names
    being distinct) the save returns with the tensor artifact holding
    the encoded tensors. *)
Theorem save_resumes_after_config model config base prefix w :
  probe w (config_path base prefix) = Returned true ->
  probe w (tensors_path base prefix) = Returned false ->
  let run := serialize_model rt model config base (Some prefix) false in
  EvOpenWrite (tensors_path base prefix) ∈ events_of run w
  /\ Forall (fun e => is_write_event e = true ->
                      event_path e = tensors_path base prefix) (events_of run w)
  /\ store (run w).2 !! config_path base prefix
     = store w !! config_path base prefix
  /\ (NoDup (map fst (named_tensors model)) ->
      (run w).1 = Returned tt
      /\ store (run w).2 !! tensors_path base prefix
         = Some (encode_tensors (named_tensors model))).
Proof.
  intros Hc Ht. cbv zeta.
  destruct (serialize_model_writes_tensors model config base prefix false w
              true false Hc Ht eq_refl) as (Hev & Hpaths & Hfr & Hok).
  cbv zeta in *. rewrite Hev. unfold config_events. cbn [negb orb app].
  split_and!.
  - rewrite !elem_of_app, elem_of_cons. auto.
  - rewrite !Forall_app. split_and!.
    + eapply Forall_impl; [apply probe_events_no_write|].
      simpl. intros e He. rewrite He. discriminate.
    + eapply Forall_impl; [apply probe_events_no_write|].
      simpl. intros e He. rewrite He. discriminate.
    + constructor; [done|]. eapply Forall_impl; [exact Hpaths|]. simpl. auto.
  - rewrite Hfr by apply config_path_ne_tensors_path.
    unfold after_config. cbn [negb orb store]. reflexivity.
  - exact Hok.
Qed.

Lemma serialize_model_skips_tensors model config base prefix force w c t :
  probe w (config_path base prefix) = Returned c ->
  probe w (tensors_path base prefix) = Returned t ->
  negb t || force = false ->
  let cp := config_path base prefix in
  let tp := tensors_path base prefix in
  let cv := effective_config model config in
  let run := serialize_model rt model config base (Some prefix) force in
  run w = (Returned tt, after_config rt w cp tp cv c force)
  /\ events_of run w
     = probe_events w cp ++ probe_events w tp
       ++ config_events rt cp cv (negb c || force).
Proof.
  intros Hc Ht Hw. cbv zeta.
  pose proof (serialize_model_run model config base prefix force w c t Hc Ht)
    as Hrun. cbv zeta in Hrun. rewrite Hw in Hrun.
  split; [exact Hrun|]. apply events_of_intro. rewrite Hrun.
  unfold after_config. cbn [snd trace]. reflexivity.
Qed.

Lemma probe_missing_empty w file :
  store w !! file = None -> on_missing w file = None ->
  probe w file = Returned false.
Proof.
  destruct w as [s l o tr]. cbn [store on_missing]. intros Hs Hm.
  unfold probe, check_file_exists, io_bind, os_path_exists, open_stream_rb, log.
  cbn [store is_local on_missing fst snd].
  rewrite Hs, andb_false_r. cbn [store on_missing]. rewrite Hs, Hm. reflexivity.
Qed.

Lemma probe_missing_raises w file e :
  store w !! file = None -> on_missing w file = Some e ->
  probe w file = Raised (StorageError e).
Proof.
  destruct w as [s l o tr]. cbn [store on_missing]. intros Hs Hm.
  unfold probe, check_file_exists, io_bind, os_path_exists, open_stream_rb, log.
  cbn [store is_local on_missing fst snd].
  rewrite Hs, andb_false_r. cbn [store on_missing]. rewrite Hs, Hm. reflexivity.
Qed.

(** A probe that raises ends the save on the spot: nothing has been
    opened for writing and the store is what it was. *)
Lemma serialize_model_probe_raises model config base prefix force w e :
  (probe w (config_path base prefix) = Raised e
   \/ (exists c, probe w (config_path base prefix) = Returned c)
      /\ probe w (tensors_path base prefix) = Raised e) ->
  let run := serialize_model rt model config base (Some prefix) force in
  (run w).1 = Raised e
  /\ store (run w).2 = store w
  /\ Forall (fun ev => is_write_event ev = false) (events_of run w).
Proof.
  intros H. cbv zeta. unfold serialize_model. cbv zeta.
  rewrite dir_prefix_config, dir_prefix_tensors.
  destruct w as [s l o tr].
  destruct H as [Hc|[[c Hc] Ht]].
  - assert (Hrun : forall A (k : bool -> io A),
        io_bind (check_file_exists (config_path base prefix)) k (World s l o tr)
        = (Raised e, World s l o
             (tr ++ probe_events (World s l o tr) (config_path base prefix)))).
    { intros A k. unfold io_bind. by rewrite check_file_exists_run, Hc. }
    rewrite Hrun. split_and!; [done..|].
    erewrite events_of_intro; [|by rewrite Hrun].
    apply probe_events_no_write.
  - assert (Hrun : forall A (k : bool -> bool -> io A),
        io_bind (check_file_exists (config_path base prefix))
          (fun a => io_bind (check_file_exists (tensors_path base prefix)) (k a))
          (World s l o tr)
        = (Raised e, World s l o
             (tr ++ probe_events (World s l o tr) (config_path base prefix)
                 ++ probe_events (World s l o tr) (tensors_path base prefix)))).
    { intros A k. unfold io_bind. rewrite check_file_exists_run, Hc.
      rewrite check_file_exists_run. cbn [store is_local on_missing trace].
      rewrite (probe_trace_irrelevant s l o _ tr), Ht.
      rewrite <- app_assoc. reflexivity. }
    rewrite Hrun. split_and!; [done..|].
    erewrite events_of_intro; [|by rewrite Hrun].
    apply Forall_app. split; apply probe_events_no_write.
Qed.

(** What the code does with [config=None] and a model that has no
    [to_dict] (a module is never a [dict]): the save never calls
    [write] on the config artifact; but whenever the config probe says
    "missing" or [force] is set it still opens the config location for
    writing, which leaves an empty config artifact there; otherwise the
    config artifact is not opened and keeps its contents.  The tensor
    artifact is opened for writing whenever its probe says "missing" or
    [force] is set. *)
Theorem save_without_derivable_config model base prefix force w c t :
  module_to_dict model = None ->
  probe w (config_path base prefix) = Returned c ->
  probe w (tensors_path base prefix) = Returned t ->
  let cp := config_path base prefix in
  let tp := tensors_path base prefix in
  let run := serialize_model rt model None base (Some prefix) force in
  (forall b, EvWrite cp b ∉ events_of run w)
  /\ (negb c || force = true ->
      EvOpenWrite cp ∈ events_of run w /\ store (run w).2 !! cp = Some [])
  /\ (negb c || force = false ->
      (EvOpenWrite cp ∉ events_of run w)
      /\ store (run w).2 !! cp = store w !! cp)
  /\ (negb t || force = true -> EvOpenWrite tp ∈ events_of run w).
Proof.
  intros Hd Hc Ht. cbv zeta.
  set (cp := config_path base prefix). set (tp := tensors_path base prefix).
  assert (Hne : cp <> tp) by apply config_path_ne_tensors_path.
  assert (Hcalls : config_write_calls rt (effective_config model None) = []).
  { unfold config_write_calls, effective_config, to_dict_of. by rewrite Hd. }
  assert (Hprobe : forall p e, e ∈ probe_events w p -> is_write_event e = false).
  { intros p e He. pose proof (probe_events_no_write w p) as Hf.
    rewrite Forall_forall in Hf. auto. }
  destruct (negb t || force) eqn:Hw.
  - destruct (serialize_model_writes_tensors model None base prefix force w
                c t Hc Ht Hw) as (Hev & Hpaths & Hfr & _).
    cbv zeta in *. fold cp tp in Hev, Hpaths, Hfr. rewrite Hev.
    rewrite Forall_forall in Hpaths.
    unfold config_events. rewrite Hcalls. cbn [map].
    split_and!.
    + intros b. rewrite !elem_of_app.
      intros [He|[He|[He|[He|He]]]].
      * by apply Hprobe in He.
      * by apply Hprobe in He.
      * destruct (negb c || force); [|by apply elem_of_nil in He].
        apply list_elem_of_singleton in He. discriminate.
      * apply list_elem_of_singleton in He. discriminate.
      * apply Hpaths in He. simpl in He. done.
    + intros Hcw. rewrite Hcw. split; [set_solver|].
      rewrite Hfr by done. unfold after_config. rewrite Hcw. cbn [store].
      unfold config_payload. rewrite Hcalls. apply lookup_insert_eq.
    + intros Hcw. rewrite Hcw. split.
      * rewrite !elem_of_app.
        intros [He|[He|[He|[He|He]]]].
        -- by apply Hprobe in He.
        -- by apply Hprobe in He.
        -- by apply elem_of_nil in He.
        -- apply list_elem_of_singleton in He. congruence.
        -- apply Hpaths in He. simpl in He. done.
      * rewrite Hfr by done. unfold after_config. rewrite Hcw. done.
    + intros _. set_solver.
  - destruct (serialize_model_skips_tensors model None base prefix force w
                c t Hc Ht Hw) as (Hrun & Hev).
    cbv zeta in *. fold cp tp in Hev, Hrun. rewrite Hev, Hrun.
    unfold config_events. rewrite Hcalls. cbn [map snd].
    split_and!.
    + intros b. rewrite !elem_of_app.
      intros [He|[He|He]].
      * by apply Hprobe in He.
      * by apply Hprobe in He.
      * destruct (negb c || force); [|by apply elem_of_nil in He].
        apply list_elem_of_singleton in He. discriminate.
    + intros Hcw. rewrite Hcw. split; [set_solver|].
      unfold after_config. rewrite Hcw. cbn [store].
      unfold config_payload. rewrite Hcalls. apply lookup_insert_eq.
    + intros Hcw. rewrite Hcw. split.
      * rewrite !elem_of_app.
        intros [He|[He|He]].
        -- by apply Hprobe in He.
        -- by apply Hprobe in He.
        -- by apply elem_of_nil in He.
      * unfold after_config. rewrite Hcw. done.
    + intros ?. done.
Qed.

(** C6 (amended). For a location holding neither artifact: when the
    adapter opens the missing locations as empty streams, both probes
    answer [False] without raising and the save goes on to open and
    write both artifacts; when the adapter signals an error on opening
    a missing location, that error leaves [check_file_exists] and the
    save ends with it before anything is opened for writing. *)
Theorem save_to_missing_location model config base prefix force w :
  store w !! config_path base prefix = None ->
  store w !! tensors_path base prefix = None ->
  let cp := config_path base prefix in
  let tp := tensors_path base prefix in
  let run := serialize_model rt model config base (Some prefix) force in
  (on_missing w cp = None -> on_missing w tp = None ->
   probe w cp = Returned false /\ probe w tp = Returned false
   /\ EvOpenWrite cp ∈ events_of run w
   /\ EvOpenWrite tp ∈ events_of run w
   /\ store (run w).2 !! cp = Some (config_payload rt (effective_config model config))
   /\ (NoDup (map fst (named_tensors model)) ->
       (run w).1 = Returned tt
       /\ store (run w).2 !! tp = Some (encode_tensors (named_tensors model))))
  /\ (forall e,
        on_missing w cp = Some e
        \/ (on_missing w cp = None /\ on_missing w tp = Some e) ->
        (run w).1 = Raised (StorageError e)
        /\ store (run w).2 = store w
        /\ Forall (fun ev => is_write_event ev = false) (events_of run w)).
Proof.
  intros Hsc Hst. cbv zeta. split.
  - intros Hmc Hmt.
    pose proof (probe_missing_empty w _ Hsc Hmc) as Hc.
    pose proof (probe_missing_empty w _ Hst Hmt) as Ht.
    destruct (serialize_model_writes_tensors model config base prefix force w
                false false Hc Ht eq_refl) as (Hev & _ & Hfr & Hok).
    cbv zeta in *. rewrite Hev. unfold config_events. cbn [negb orb].
    split_and!; [done|done| | | |exact Hok].
    + rewrite !elem_of_app, !elem_of_cons. auto 10.
    + rewrite !elem_of_app, !elem_of_cons. auto 10.
    + rewrite Hfr by apply config_path_ne_tensors_path.
      unfold after_config. cbn [negb orb store]. apply lookup_insert_eq.
  - intros e He. apply serialize_model_probe_raises.
    destruct He as [Hmc|[Hmc Hmt]].
    + left. by apply probe_missing_raises.
    + right. split; [exists false; by apply probe_missing_empty|].
      by apply probe_missing_raises.
Qed.

(** ** Config loading in [load_model] *)

(** The config branch with a [config_class], as a decision table over
    the stream, the first attempt and the second attempt. *)
Lemma model_from_config_class_run uri mc cc w :
  model_from_config_class uri mc cc w
  = match open_stream_rb uri w with
    | (Raised e, w1) => (Raised e, w1)
    | (Returned s, w1) =>
        match from_pretrained cc (store w1) (FromDirectory s) with
        | Returned c =>
            (config_loader_of mc
               (set_attr "gradient_checkpointing" (JBool true) c), w1)
        | Raised ValueError =>
            match from_pretrained cc (store w1) (FromLocation uri) with
            | Returned c2 => (config_loader_of mc c2, w1)
            | Raised e2 => (Raised e2, w1)
            end
        | Raised e => (Raised e, w1)
        end
    end.
Proof.
  unfold model_from_config_class, config_loader_of, try_except_ValueError,
    io_bind, io_ret, lift.
  destruct (open_stream_rb_outcome uri w) as [[s Hs]|[e Hs]];
    destruct (open_stream_rb uri w) as [r w1]; simpl in Hs; subst r;
    [|reflexivity].
  destruct (from_pretrained cc (store w1) (FromDirectory s)) as [c|e];
    [reflexivity|].
  destruct e; reflexivity.
Qed.

(** The config branch without a [config_class]: the stream contents are
    decoded first, the local file second. *)
Lemma model_from_json_run uri mc w :
  let build (v : json) : outcome module :=
    match v with
    | JDict kwargs => init_kwargs mc kwargs
    | _ => Raised TypeError
    end in
  model_from_json rt uri mc w
  = match open_stream_rb uri w with
    | (Raised e, w1) => (Raised e, w1)
    | (Returned s, w1) =>
        match json_loads rt s with
        | Some v => (build v, w1)
        | None =>
            match local_open_read uri w1 with
            | (Raised e2, w2) => (Raised e2, w2)
            | (Returned s2, w2) =>
                match json_loads rt s2 with
                | Some v2 => (build v2, w2)
                | None => (Raised ValueError, w2)
                end
            end
        end
    end.
Proof.
  cbv zeta.
  unfold model_from_json, try_except_ValueError, io_bind, io_ret, lift, raise.
  destruct (open_stream_rb_outcome uri w) as [[s Hs]|[e Hs]];
    destruct (open_stream_rb uri w) as [r w1]; simpl in Hs; subst r;
    [|reflexivity].
  destruct (json_loads rt s) as [v|]; [by destruct v|].
  destruct (local_open_read uri w1) as [[s2|e2] w2]; [|reflexivity].
  destruct (json_loads rt s2) as [v2|]; [by destruct v2|reflexivity].
Qed.


(** C10. With a [config_class], when the first (scratch directory)
    load succeeds the model is built from that config with
    [gradient_checkpointing] set to [True]; in the [ValueError]
    fallback the model is built from the config exactly as the second
    load returned it, the attribute not being set there; so for a
    config that does not already carry [gradient_checkpointing = True]
    the two paths hand the constructor configs that differ in that
    field. *)
Theorem gradient_checkpointing_only_on_first_path uri mc cc w s :
  (open_stream_rb uri w).1 = Returned s ->
  let w1 := (open_stream_rb uri w).2 in
  let first := from_pretrained cc (store w1) (FromDirectory s) in
  let second := from_pretrained cc (store w1) (FromLocation uri) in
  let run := model_from_config_class uri mc cc w in
  let enabled (c : config_obj) :=
    set_attr "gradient_checkpointing" (JBool true) c in
  (forall c, first = Returned c ->
     run = (config_loader_of mc (enabled c), w1)
     /\ attrs (enabled c) !! "gradient_checkpointing" = Some (JBool true))
  /\ (forall c2, first = Raised ValueError -> second = Returned c2 ->
        run = (config_loader_of mc c2, w1))
  /\ (forall c,
        attrs c !! "gradient_checkpointing" <> Some (JBool true) ->
        attrs (enabled c) !! "gradient_checkpointing"
        <> attrs c !! "gradient_checkpointing").
Proof.
  intros Hs. cbv zeta. rewrite model_from_config_class_run.
  destruct (open_stream_rb uri w) as [r w1]. simpl in Hs. subst r.
  cbn [snd]. split_and!.
  - intros c ->. split; [reflexivity|]. apply lookup_insert_eq.
  - intros c2 -> ->. reflexivity.
  - intros c Hc. unfold set_attr. cbn [attrs].
    rewrite lookup_insert_eq. congruence.
Qed.

(** ** Save, then load *)

Lemma load_into_module_directory dt stored skeleton :
  load_into_module rt
    (Deserializer (encode_tensors stored) (directory_of 0 stored) dt) skeleton
  = Module_ (bind_tensors rt dt stored (named_tensors skeleton))
      (module_to_dict skeleton).
Proof.
  unfold load_into_module, bind_tensors. f_equal. apply map_ext.
  intros [name t0]. cbn [fst d_directory].
  pose proof (find_record_directory stored [] [] name) as H.
  cbn [length app] in H. rewrite app_nil_r in H.
  destruct (find_record name (directory_of 0 stored)) as [r|]; rewrite H;
    [|reflexivity].
  unfold materialize. cbn [d_stream d_dtype]. reflexivity.
Qed.

Lemma lookup_tensor_elem_of l name t :
  NoDup (map fst l) -> (name, t) ∈ l -> lookup_tensor name l = Some t.
Proof.
  unfold lookup_tensor. induction l as [|[n t'] l IH]; intros Hnd Hin.
  - by apply elem_of_nil in Hin.
  - cbn [map fst] in Hnd. apply NoDup_cons in Hnd as [Hn Hnd].
    cbn [List.find fst]. apply elem_of_cons in Hin as [[= -> ->]|Hin].
    + by rewrite bool_decide_eq_true_2.
    + rewrite bool_decide_eq_false_2; [by apply IH|].
      intros ->. apply Hn. apply list_elem_of_In, in_map_iff.
      exists (name, t). split; [done|]. by apply list_elem_of_In.
Qed.

Lemma bind_tensors_same_slots stored :
  NoDup (map fst stored) ->
  forall slots part,
    (forall nt, nt ∈ part -> nt ∈ stored) ->
    map fst slots = map fst part ->
    bind_tensors rt None stored slots = part.
Proof.
  intros Hnd. unfold bind_tensors.
  induction slots as [|[n t0] slots IH]; intros [|[n' t] part] Hsub Hnames;
    try discriminate; [reflexivity|].
  cbn [map fst] in *. injection Hnames as -> Hnames.
  rewrite (lookup_tensor_elem_of stored n' t Hnd) by (apply Hsub; left).
  f_equal. apply IH; [|done]. intros nt Hnt. apply Hsub. by right.
Qed.

(** C1. Saving a module whose tensor names are distinct (the save
    writing the tensor artifact: it was missing, or [force] is set) and
    then loading the location returns, provided the config step of the
    load yields a skeleton, that skeleton with every slot whose name
    was saved bound to the saved tensor, bit for bit when no dtype is
    requested and through the requested cast otherwise; a skeleton with
    the saved names as slots comes back with exactly the saved
    tensors. *)
Theorem save_then_load_round_trip model config base prefix force w c t
    mc cc dt skeleton w3 :
  NoDup (map fst (named_tensors model)) ->
  Forall (fun nt => fits_record nt.1 nt.2) (named_tensors model) ->
  probe w (config_path base prefix) = Returned c ->
  probe w (tensors_path base prefix) = Returned t ->
  negb t || force = true ->
  let saved := serialize_model rt model config base (Some prefix) force w in
  construct_model rt (config_path base prefix) mc cc
    (open_stream_rb (tensors_path base prefix) saved.2).2
  = (Returned skeleton, w3) ->
  saved.1 = Returned tt
  /\ load_model rt base mc cc (Some prefix) dt saved.2
     = (Returned
          (Module_ (bind_tensors rt dt (named_tensors model) (named_tensors skeleton))
             (module_to_dict skeleton)), w3)
  /\ (dt = None ->
      map fst (named_tensors skeleton) = map fst (named_tensors model) ->
      bind_tensors rt dt (named_tensors model) (named_tensors skeleton)
      = named_tensors model).
Proof.
  intros Hnd Hfits Hc Ht Hw. cbv zeta. intros Hcfg.
  destruct (serialize_model_writes_tensors model config base prefix force w
              c t Hc Ht Hw) as (_ & _ & _ & Hok).
  cbv zeta in Hok. destruct (Hok Hnd) as [Hret Hstore]. clear Hok.
  split_and!; [exact Hret| |].
  - unfold load_model. cbv zeta. fold (tensors_path base prefix).
    fold (config_path base prefix).
    set (saved := serialize_model rt model config base (Some prefix) force w) in *.
    unfold io_bind at 1.
    assert (Hopen : open_stream_rb (tensors_path base prefix) saved.2
                    = (Returned (encode_tensors (named_tensors model)),
                       (open_stream_rb (tensors_path base prefix) saved.2).2)).
    { unfold open_stream_rb. rewrite Hstore. reflexivity. }
    rewrite Hopen. unfold io_bind at 1. unfold TensorDeserializer.
    rewrite parse_directory_encode by done.
    unfold io_ret at 1. unfold io_bind.
    fold (construct_model rt (config_path base prefix) mc cc).
    rewrite Hcfg. unfold io_ret.
    by rewrite load_into_module_directory.
  - intros -> Hnames. by apply bind_tensors_same_slots.
Qed.

(** ** Trailing separators *)

Lemma str_last_app_slash b : str_last (b +:+ "/") = Some "/"%char.
Proof.
  induction b as [|a b IH]; [reflexivity|].
  rewrite str_app_cons. cbn [str_last]. rewrite IH.
  destruct b; reflexivity.
Qed.

Lemma str_drop_last_app_slash b : str_drop_last (b +:+ "/") = b.
Proof.
  induction b as [|a b IH]; [reflexivity|].
  rewrite str_app_cons. cbn [str_drop_last]. rewrite IH.
  destruct b; reflexivity.
Qed.

Lemma strip_output_prefix_slash b : strip_output_prefix (b +:+ "/") = Returned b.
Proof.
  unfold strip_output_prefix. rewrite str_last_app_slash.
  rewrite decide_True by done. by rewrite str_drop_last_app_slash.
Qed.


Lemma str_length_app (s u : string) :
  String.length (s +:+ u) = String.length s + String.length u.
Proof.
  induction s as [|a s IH]; [reflexivity|].
  rewrite str_app_cons. cbn [String.length]. by rewrite IH.
Qed.






End OrchestratorFacts.

(** * The examples *)

Lemma example_names_distinct : NoDup (map fst (named_tensors example_model)).
Proof. apply (bool_decide_unpack _). vm_compute. exact I. Defined.

Lemma example_fits :
  Forall (fun nt => fits_record nt.1 nt.2) (named_tensors example_model).
Proof. apply (bool_decide_unpack _). vm_compute. exact I. Defined.

(** ** C1 at the example: saved to an empty bucket with an empty dict
    as config, the two tensors come back as they were. *)
Lemma save_then_load_round_trip_witness :
  let saved :=
    serialize_model stub_runtime example_model (Some (ConfigDict [])) "out"
      (Some "model") false empty_bucket in
  saved.1 = Returned tt
  /\ (load_model stub_runtime "out" example_class None (Some "model") None
        saved.2).1
     = Returned example_model.
Proof.
  cbv zeta.
  pose proof (save_then_load_round_trip stub_runtime example_model
                (Some (ConfigDict [])) "out" "model" false empty_bucket
                false false example_class None None example_skeleton
                (construct_model stub_runtime (config_path "out" "model")
                   example_class None
                   (open_stream_rb (tensors_path "out" "model")
                      (serialize_model stub_runtime example_model
                         (Some (ConfigDict [])) "out" (Some "model") false
                         empty_bucket).2).2).2
                example_names_distinct example_fits) as H.
  cbv zeta in H.
  destruct H as (Hsave & Hload & Hsame); [vm_compute; reflexivity..|].
  split; [exact Hsave|].
  rewrite Hload. cbn [fst]. rewrite Hsame by reflexivity. reflexivity.
Defined.

(** ** C2 at the example *)
Lemma save_skips_existing_unless_forced_witness :
  store (serialize_model stub_runtime example_model None "out" (Some "model")
           false complete_disk).2 = store complete_disk
  /\ EvOpenWrite "out/model.tensors"
       ∈ events_of (serialize_model stub_runtime example_model None "out"
                      (Some "model") true) complete_disk.
Proof.
  pose proof (save_skips_existing_unless_forced stub_runtime example_model None
                "out" "model" complete_disk) as H.
  destruct H as [(_ & Hsame & _) (_ & Hopen & _)]; [vm_compute; reflexivity..|].
  split; [exact Hsame|exact Hopen].
Defined.

(** ** C3 at the example *)
Lemma save_resumes_after_config_witness :
  store (serialize_model stub_runtime example_model None "out" (Some "model")
           false config_only_bucket).2 !! "out/model-config.json"
  = Some (String.list_byte_of_string "{}")
  /\ EvOpenWrite "out/model.tensors"
       ∈ events_of (serialize_model stub_runtime example_model None "out"
                      (Some "model") false) config_only_bucket.
Proof.
  pose proof (save_resumes_after_config stub_runtime example_model None
                "out" "model" config_only_bucket) as H.
  destruct H as (Hopen & _ & Hcfg & _); [vm_compute; reflexivity..|].
  split; [|exact Hopen].
  etrans; [exact Hcfg|]. vm_compute. reflexivity.
Defined.

(** Saved to an empty bucket with [config=None], the module having no
    [to_dict], the config location holds an (empty) artifact
    afterwards. *)
Lemma config_artifact_created_counterexample :
  let saved :=
    serialize_model stub_runtime example_model None "out" (Some "model") false
      empty_bucket in
  module_to_dict example_model = None
  /\ store empty_bucket !! "out/model-config.json" = None
  /\ store saved.2 !! "out/model-config.json" = Some []
  /\ store saved.2 !! "out/model-config.json" <> None.
Proof. cbv zeta. split_and!; [reflexivity|reflexivity|by vm_compute|by vm_compute]. Qed.

(** C4. The code at the failing input.  With [config=None] and a
    module without [to_dict], line 94 opens the config stream before
    lines 95-98 find that there is nothing to dump.  Saved to an empty
    bucket, the save returns, the config location has been opened for
    writing and holds a zero-byte artifact, and [load_model] without a
    [config_class] then fails on it.  Saved to an empty local
    directory, that zero-byte file makes the probe answer [True], so no
    later save with [force=False] touches it again.  Saved with
    [force=True] over a complete location, the valid config that was
    there is truncated to nothing. *)
Theorem missing_config_leaves_empty_sidecar :
  let run := serialize_model stub_runtime example_model None "out" (Some "model") in
  module_to_dict example_model = None
  /\ (run false empty_bucket).1 = Returned tt
  /\ store empty_bucket !! "out/model-config.json" = None
  /\ EvOpenWrite "out/model-config.json" ∈ events_of (run false) empty_bucket
  /\ store (run false empty_bucket).2 !! "out/model-config.json" = Some []
  /\ (load_model stub_runtime "out" example_class None (Some "model") None
        (run false empty_bucket).2).1 = Raised (StorageError NotFound)
  /\ (check_file_exists "out/model-config.json"
        (run false empty_directory).2).1 = Returned true
  /\ store (run false empty_directory).2 !! "out/model-config.json" = Some []
  /\ store complete_disk !! "out/model-config.json"
     = Some (String.list_byte_of_string "{}")
  /\ store (run true complete_disk).2 !! "out/model-config.json" = Some [].
Proof.
  cbv zeta. split_and!; try (vm_compute; reflexivity).
  match goal with
  | |- _ ∈ ?l =>
      let l' := eval vm_compute in l in
      replace l with l' by (vm_compute; reflexivity)
  end.
  rewrite !elem_of_cons. auto 10.
Qed.

Lemma save_without_derivable_config_witness :
  EvOpenWrite "out/model-config.json"
    ∈ events_of (serialize_model stub_runtime example_model None "out"
                   (Some "model") false) empty_bucket
  /\ forall b,
      EvWrite "out/model-config.json" b
        ∉ events_of (serialize_model stub_runtime example_model None "out"
                       (Some "model") false) empty_bucket.
Proof.
  pose proof (save_without_derivable_config stub_runtime example_model
                "out" "model" false empty_bucket false false eq_refl) as H.
  destruct H as (Hnowrite & Hopen & _); [vm_compute; reflexivity..|].
  split; [exact (proj1 (Hopen eq_refl))|exact Hnowrite].
Defined.

(** ** C5 at the examples *)
Lemma check_file_exists_probe_witness :
  (check_file_exists "out/model.tensors" complete_disk).1 = Returned true
  /\ (check_file_exists "out/model-config.json" config_only_bucket).1
     = Returned true
  /\ (check_file_exists "out/model.tensors" config_only_bucket).1
     = Returned false.
Proof.
  split_and!.
  - apply (proj1 (check_file_exists_probe "out/model.tensors" complete_disk)).
    vm_compute. reflexivity.
  - apply (proj2 (check_file_exists_probe "out/model-config.json"
                    config_only_bucket) (String.list_byte_of_string "{}"));
      [vm_compute; reflexivity..|]. vm_compute. discriminate.
  - apply (proj2 (check_file_exists_probe "out/model.tensors"
                    config_only_bucket) []);
      vm_compute; reflexivity.
Defined.

(** ** C6: the claim fails at the example.  On a disk holding neither
    artifact, where opening a missing file signals [NotFound], the
    probe raises and the save ends with that error, nothing written. *)
Lemma probe_raises_counterexample :
  let run :=
    serialize_model stub_runtime example_model None "out" (Some "model") false in
  store empty_disk !! "out/model-config.json" = None
  /\ store empty_disk !! "out/model.tensors" = None
  /\ (check_file_exists "out/model-config.json" empty_disk).1
     = Raised (StorageError NotFound)
  /\ (run empty_disk).1 = Raised (StorageError NotFound)
  /\ store (run empty_disk).2 = ∅.
Proof. cbv zeta. split_and!; by vm_compute. Qed.

Lemma save_to_missing_location_witness :
  let run :=
    serialize_model stub_runtime example_model None "out" (Some "model") false in
  probe empty_bucket "out/model-config.json" = Returned false
  /\ probe empty_bucket "out/model.tensors" = Returned false
  /\ (run empty_bucket).1 = Returned tt
  /\ store (run empty_bucket).2 !! "out/model.tensors"
     = Some (encode_tensors (named_tensors example_model)).
Proof.
  cbv zeta.
  pose proof (save_to_missing_location stub_runtime example_model None
                "out" "model" false empty_bucket) as H.
  destruct H as [H _]; [vm_compute; reflexivity..|].
  destruct H as (Hc & Ht & _ & _ & _ & Hok); [reflexivity..|].
  destruct (Hok example_names_distinct) as [Hret Hstore].
  split_and!; [exact Hc|exact Ht|exact Hret|exact Hstore].
Defined.





(** ** C10 at the example *)
Lemma gradient_checkpointing_only_on_first_path_witness :
  model_from_config_class "out/model-config.json" example_class lenient_config
    complete_disk
  = (config_loader_of example_class
       (set_attr "gradient_checkpointing" (JBool true) (ConfigObj ∅ None)),
     (open_stream_rb "out/model-config.json" complete_disk).2).
Proof.
  pose proof (gradient_checkpointing_only_on_first_path "out/model-config.json"
                example_class lenient_config complete_disk
                (String.list_byte_of_string "{}")) as H.
  destruct H as (Hfirst & _); [vm_compute; reflexivity|].
  exact (proj1 (Hfirst (ConfigObj ∅ None) eq_refl)).
Defined.

(** * Further properties *)

(** ** The probe, by what the location holds *)

Lemma probe_present w file b :
  store w !! file = Some b ->
  probe w file = Returned (is_local w file || bool_decide (b <> [])).
Proof.
  destruct w as [s l o tr]. cbn [store is_local]. intros Hs.
  unfold probe, check_file_exists, io_bind, os_path_exists, open_stream_rb, log.
  cbn [store is_local on_missing trace fst snd]. rewrite Hs.
  rewrite bool_decide_eq_true_2 by eauto. rewrite andb_true_r.
  destruct (l file); [reflexivity|]. cbn [orb store]. rewrite Hs.
  destruct b as [|x b]; reflexivity.
Qed.

Lemma probe_ext w w' file :
  store w = store w' -> is_local w = is_local w' ->
  on_missing w = on_missing w' -> probe w file = probe w' file.
Proof.
  destruct w as [s l o t], w' as [s' l' o' t'].
  cbn [store is_local on_missing]. intros -> -> ->.
  apply probe_trace_irrelevant.
Qed.

(** X1. Probing changes nothing: the artifacts and the adapter are as
    before, and what is logged is the [os.path.exists] test, followed
    by one opening for reading exactly when that test fails. *)
Theorem check_file_exists_changes_nothing file w :
  let after := (check_file_exists file w).2 in
  store after = store w
  /\ is_local after = is_local w
  /\ on_missing after = on_missing w
  /\ events_of (check_file_exists file) w
     = EvPathExists file
       :: (if (os_path_exists file w).1 is Returned true then []
           else [EvOpenRead file]).
Proof.
  cbv zeta. rewrite check_file_exists_run. cbn [snd store is_local on_missing].
  split_and!; [done..|].
  apply events_of_intro. rewrite check_file_exists_run. cbn [snd trace].
  unfold probe_events, os_path_exists. cbn [fst].
  by destruct (is_local w file && _).
Qed.


(** ** Read-only computations *)

Lemma read_only_intro {A} (m : io A) :
  (forall w, exists evs,
      (m w).2 = World (store w) (is_local w) (on_missing w) (trace w ++ evs)
      /\ Forall (fun e => is_write_event e = false) evs) ->
  read_only m.
Proof.
  intros H w. destruct (H w) as (evs & Hw & Hev).
  assert (Ht : trace (m w).2 = trace w ++ evs) by (by rewrite Hw).
  rewrite (events_of_intro m w evs Ht), Hw. by split_and!.
Qed.

Lemma read_only_world {A} (m : io A) w :
  read_only m ->
  (m w).2 = World (store w) (is_local w) (on_missing w)
              (trace w ++ events_of m w).
Proof.
  intros H. destruct (H w) as (Hs & Hl & Ho & Ht & _).
  destruct (m w).2 as [s l o t]. cbn in *. by subst.
Qed.

Lemma read_only_silent {A} (m : io A) :
  (forall w, (m w).2 = w) -> read_only m.
Proof.
  intros H. apply read_only_intro. intros w. exists []. rewrite H, app_nil_r.
  split; [by destruct w|constructor].
Qed.

Lemma read_only_bind {A B} (m : io A) (k : A -> io B) :
  read_only m -> (forall a, read_only (k a)) -> read_only (io_bind m k).
Proof.
  intros Hm Hk. apply read_only_intro. intros w. unfold io_bind.
  pose proof (read_only_world m w Hm) as Hw.
  destruct (Hm w) as (_ & _ & _ & _ & Hev).
  set (w1' := World (store w) (is_local w) (on_missing w)
                (trace w ++ events_of m w)) in *.
  destruct (m w) as [[a|e] w1]; cbn [snd] in Hw; subst w1.
  - pose proof (read_only_world (k a) w1' (Hk a)) as Hw2.
    destruct (Hk a w1') as (_ & _ & _ & _ & Hev2).
    exists (events_of m w ++ events_of (k a) w1'). rewrite Hw2.
    subst w1'. cbn [store is_local on_missing trace].
    rewrite <- app_assoc. split; [reflexivity|]. by apply Forall_app.
  - exists (events_of m w). split; [reflexivity|done].
Qed.

Lemma read_only_try {A} (body handler : io A) :
  read_only body -> read_only handler ->
  read_only (try_except_ValueError body handler).
Proof.
  intros Hb Hh. apply read_only_intro. intros w. unfold try_except_ValueError.
  pose proof (read_only_world body w Hb) as Hw.
  destruct (Hb w) as (_ & _ & _ & _ & Hev).
  set (w1' := World (store w) (is_local w) (on_missing w)
                (trace w ++ events_of body w)) in *.
  destruct (body w) as [[a|e] w1]; cbn [snd] in Hw; subst w1.
  - exists (events_of body w). split; [reflexivity|done].
  - assert (Hkeep : exists evs,
        w1' = World (store w) (is_local w) (on_missing w) (trace w ++ evs)
        /\ Forall (fun e => is_write_event e = false) evs) by eauto.
    destruct e; try exact Hkeep.
    pose proof (read_only_world handler w1' Hh) as Hw2.
    destruct (Hh w1') as (_ & _ & _ & _ & Hev2).
    exists (events_of body w ++ events_of handler w1'). rewrite Hw2.
    subst w1'. cbn [store is_local on_missing trace].
    rewrite <- app_assoc. split; [reflexivity|]. by apply Forall_app.
Qed.

Lemma read_only_open_stream_rb file : read_only (open_stream_rb file).
Proof.
  apply read_only_intro. intros w. exists [EvOpenRead file].
  unfold open_stream_rb, log.
  destruct (store w !! file); [|destruct (on_missing w file)];
    (split; [reflexivity|by repeat constructor]).
Qed.

Lemma read_only_local_open_read file : read_only (local_open_read file).
Proof.
  apply read_only_intro. intros w. exists [EvLocalOpen file].
  unfold local_open_read, log.
  destruct (is_local w file); [destruct (store w !! file)|];
    (split; [reflexivity|by repeat constructor]).
Qed.

Section FurtherFacts.
Context (rt : runtime).

Lemma read_only_load_model base mc cc prefix dt :
  read_only (load_model rt base mc cc prefix dt).
Proof.
  unfold load_model. cbv zeta.
  apply read_only_bind; [apply read_only_open_stream_rb|]. intros s.
  apply read_only_bind.
  { unfold TensorDeserializer.
    destruct (parse_directory _ _ _); by apply read_only_silent. }
  intros d. apply read_only_bind; [|intros; by apply read_only_silent].
  destruct cc as [cc|].
  - unfold model_from_config_class.
    apply read_only_bind; [|intros; by apply read_only_silent].
    apply read_only_try; [|by apply read_only_silent].
    apply read_only_bind; [apply read_only_open_stream_rb|]. intros b.
    apply read_only_bind; intros; by apply read_only_silent.
  - unfold model_from_json.
    apply read_only_bind.
    + apply read_only_try.
      * apply read_only_bind; [apply read_only_open_stream_rb|]. intros b.
        destruct (json_loads rt b); by apply read_only_silent.
      * apply read_only_bind; [apply read_only_local_open_read|]. intros b.
        destruct (json_loads rt b); by apply read_only_silent.
    + intros []; by apply read_only_silent.
Qed.


(** X4. [load_model] opens the tensor artifact first: when that
    location holds nothing and the adapter signals an error for it, the
    load ends with that error and the config location is never
    accessed. *)
Theorem load_model_fails_before_config base mc cc prefix dt w e :
  store w !! tensors_path base prefix = None ->
  on_missing w (tensors_path base prefix) = Some e ->
  let run := load_model rt base mc cc (Some prefix) dt in
  (run w).1 = Raised (StorageError e)
  /\ events_of run w = [EvOpenRead (tensors_path base prefix)].
Proof.
  intros Hs Hm. cbv zeta.
  assert (Hrun : load_model rt base mc cc (Some prefix) dt w
                 = (Raised (StorageError e),
                    log (EvOpenRead (tensors_path base prefix)) w)).
  { unfold load_model. cbv zeta. fold (tensors_path base prefix).
    unfold io_bind at 1. unfold open_stream_rb. by rewrite Hs, Hm. }
  rewrite Hrun. split; [done|]. apply events_of_intro. by rewrite Hrun.
Qed.

Lemma model_from_json_rejected uri mc w s :
  (open_stream_rb uri w).1 = Returned s ->
  json_loads rt s = None ->
  (model_from_json rt uri mc w).1
  = Raised (if is_local w uri && bool_decide (is_Some (store w !! uri))
            then ValueError else StorageError NotFound).
Proof.
  intros Hs Hj. pose proof (model_from_json_run rt uri mc w) as Hrun.
  cbv zeta in Hrun. rewrite Hrun. clear Hrun.
  unfold open_stream_rb in *. unfold local_open_read, log.
  destruct (store w !! uri) as [b|] eqn:Hb.
  - cbn [fst] in Hs. injection Hs as ->. rewrite Hj.
    cbn [is_local store]. rewrite Hb.
    rewrite bool_decide_eq_true_2 by eauto. rewrite andb_true_r.
    destruct (is_local w uri); [|reflexivity]. by rewrite Hj.
  - rewrite bool_decide_eq_false_2 by (by intros [? ?]). rewrite andb_false_r.
    destruct (on_missing w uri); [discriminate|].
    cbn [fst] in Hs. injection Hs as <-. rewrite Hj.
    cbn [is_local store]. rewrite Hb. by destruct (is_local w uri).
Qed.


End FurtherFacts.

(** ** Saving twice, and saving side by side *)

Lemma probe_agree w w' file :
  store w !! file = store w' !! file ->
  is_local w file = is_local w' file ->
  on_missing w file = on_missing w' file ->
  probe w file = probe w' file.
Proof.
  destruct w as [s l o t], w' as [s' l' o' t'].
  cbn [store is_local on_missing]. intros Hs Hl Ho.
  unfold probe, check_file_exists, io_bind, os_path_exists, open_stream_rb, log.
  cbn [store is_local on_missing trace fst snd]. rewrite Hs, Hl.
  destruct (l' file && _); [reflexivity|].
  cbn [store on_missing]. rewrite Hs, Ho.
  destruct (s' !! file); [|destruct (o' file)]; try reflexivity;
    cbn [fst snd]; try case_dec; reflexivity.
Qed.

Lemma encode_tensors_nonempty l : l <> [] -> encode_tensors l <> [].
Proof.
  destruct l as [|[name t] l]; [done|]. intros _ H.
  apply (f_equal length) in H. rewrite encode_tensors_cons in H.
  cbn [fst snd] in H. rewrite length_app, length_encode_record in H.
  pose proof (length_encode_header_pos name t). simpl in H. lia.
Qed.

Lemma write_tensors_keeps_open ts l :
  forall seen w,
    is_Some (store w !! ts) ->
    is_Some (store (write_tensors ts seen l w).2 !! ts).
Proof.
  induction l as [|[name t] rest IH]; intros seen w Hs; cbn [write_tensors].
  - done.
  - destruct (decide (name ∈ seen)); [done|].
    unfold io_bind, stream_write at 1. apply IH.
    cbn [store set_store log]. rewrite lookup_insert_eq. eauto.
Qed.

Section SavingFacts.
Context (rt : runtime).

Lemma serialize_model_keeps_adapter model config base prefix force w :
  let after := (serialize_model rt model config base (Some prefix) force w).2 in
  is_local after = is_local w /\ on_missing after = on_missing w.
Proof.
  cbv zeta.
  destruct (confined_serialize_model rt model config base prefix force w)
    as (_ & _ & _ & Hl & Ho). by split.
Qed.

(** What a save leaves at its two locations, whether or not the tensor
    step returns. *)
Lemma serialize_model_leaves model config base prefix force w c t :
  probe w (config_path base prefix) = Returned c ->
  probe w (tensors_path base prefix) = Returned t ->
  let cp := config_path base prefix in
  let tp := tensors_path base prefix in
  let cv := effective_config model config in
  let run := serialize_model rt model config base (Some prefix) force in
  store (run w).2 !! cp
  = (if negb c || force then Some (config_payload rt cv) else store w !! cp)
  /\ (if negb t || force then is_Some (store (run w).2 !! tp)
      else store (run w).2 !! tp = store w !! tp)
  /\ exists rest,
      events_of run w
      = probe_events w cp ++ probe_events w tp
        ++ config_events rt cp cv (negb c || force) ++ rest.
Proof.
  intros Hc Ht. cbv zeta.
  assert (Hne : config_path base prefix <> tensors_path base prefix)
    by apply config_path_ne_tensors_path.
  assert (Hcfg : store (after_config rt w (config_path base prefix)
                          (tensors_path base prefix)
                          (effective_config model config) c force)
                   !! config_path base prefix
                 = (if negb c || force
                    then Some (config_payload rt (effective_config model config))
                    else store w !! config_path base prefix)).
  { unfold after_config. cbn [store].
    destruct (negb c || force); [apply lookup_insert_eq|done]. }
  assert (Htns : store (after_config rt w (config_path base prefix)
                          (tensors_path base prefix)
                          (effective_config model config) c force)
                   !! tensors_path base prefix
                 = store w !! tensors_path base prefix).
  { unfold after_config. cbn [store].
    destruct (negb c || force); [by rewrite lookup_insert_ne|done]. }
  destruct (negb t || force) eqn:Hw.
  - destruct (serialize_model_writes_tensors rt model config base prefix force
                w c t Hc Ht Hw) as (Hev & _ & Hfr & _).
    cbv zeta in *. split_and!.
    + by rewrite Hfr.
    + pose proof (serialize_model_run rt model config base prefix force w c t
                    Hc Ht) as Hrun.
      cbv zeta in Hrun. rewrite Hw in Hrun. rewrite Hrun.
      unfold write_module. apply write_tensors_keeps_open.
      cbn [store]. rewrite lookup_insert_eq. eauto.
    + rewrite Hev. eauto.
  - destruct (serialize_model_skips_tensors rt model config base prefix force
                w c t Hc Ht Hw) as (Hrun & Hev).
    cbv zeta in *. rewrite Hrun. cbn [snd]. split_and!; [done..|].
    exists []. by rewrite Hev, app_nil_r.
Qed.

(** X6. Once a save has written both artifacts (the config it dumped
    being non-empty or at a local path, and at least one tensor being
    saved or the tensor location being a local path), a later save to
    the same location with [force=False] returns without opening or
    writing anything, whatever model and config it is given: the store
    is unchanged and the tensor artifact still holds the tensors of the
    first save. *)
Theorem later_save_keeps_first model config model' config' base prefix force
    w c t :
  NoDup (map fst (named_tensors model)) ->
  probe w (config_path base prefix) = Returned c ->
  probe w (tensors_path base prefix) = Returned t ->
  negb c || force = true ->
  negb t || force = true ->
  is_local w (config_path base prefix) = true
  \/ config_payload rt (effective_config model config) <> [] ->
  is_local w (tensors_path base prefix) = true \/ named_tensors model <> [] ->
  let w1 := (serialize_model rt model config base (Some prefix) force w).2 in
  let again := serialize_model rt model' config' base (Some prefix) false in
  (again w1).1 = Returned tt
  /\ store (again w1).2 = store w1
  /\ Forall (fun e => is_write_event e = false) (events_of again w1)
  /\ store (again w1).2 !! tensors_path base prefix
     = Some (encode_tensors (named_tensors model)).
Proof.
  intros Hnd Hc Ht Hcw Htw Hcfg Htns. cbv zeta.
  set (w1 := (serialize_model rt model config base (Some prefix) force w).2).
  destruct (serialize_model_keeps_adapter model config base prefix force w)
    as [Hl Ho]. cbv zeta in Hl, Ho. fold w1 in Hl, Ho.
  destruct (serialize_model_leaves model config base prefix force w c t Hc Ht)
    as (Hscp & _ & _). cbv zeta in Hscp. fold w1 in Hscp. rewrite Hcw in Hscp.
  destruct (serialize_model_writes_tensors rt model config base prefix force
              w c t Hc Ht Htw) as (_ & _ & _ & Hok).
  cbv zeta in Hok. destruct (Hok Hnd) as [_ Hstp]. fold w1 in Hstp.
  assert (Hc1 : probe w1 (config_path base prefix) = Returned true).
  { rewrite (probe_present _ _ _ Hscp), Hl.
    destruct Hcfg as [->|Hp]; [done|].
    by rewrite bool_decide_eq_true_2, orb_true_r. }
  assert (Ht1 : probe w1 (tensors_path base prefix) = Returned true).
  { rewrite (probe_present _ _ _ Hstp), Hl.
    destruct Htns as [->|Hp]; [done|].
    rewrite bool_decide_eq_true_2, orb_true_r; [done|].
    by apply encode_tensors_nonempty. }
  destruct (serialize_model_skips_tensors rt model' config' base prefix false
              w1 true true Hc1 Ht1 eq_refl) as (Hrun & Hev).
  cbv zeta in Hrun, Hev. rewrite Hrun, Hev. cbn [fst snd].
  unfold after_config, config_events. cbn [negb orb store].
  split_and!; [done|done| |done].
  rewrite app_nil_r. apply Forall_app. split; apply probe_events_no_write.
Qed.

(** X7. At a location that is not a local path, the empty config
    artifact left by a save that had no config to dump (see C4) reads
    as missing: every later save with [force=False] opens the config
    location for writing again. *)
Theorem empty_config_reopened_by_later_save model model' config' base prefix
    w t :
  module_to_dict model = None ->
  is_local w (config_path base prefix) = false ->
  probe w (config_path base prefix) = Returned false ->
  probe w (tensors_path base prefix) = Returned t ->
  let w1 := (serialize_model rt model None base (Some prefix) false w).2 in
  let again := serialize_model rt model' config' base (Some prefix) false in
  store w1 !! config_path base prefix = Some []
  /\ probe w1 (config_path base prefix) = Returned false
  /\ EvOpenWrite (config_path base prefix) ∈ events_of again w1.
Proof.
  intros Hd Hloc Hc Ht. cbv zeta.
  set (w1 := (serialize_model rt model None base (Some prefix) false w).2).
  destruct (serialize_model_keeps_adapter model None base prefix false w)
    as [Hl Ho]. cbv zeta in Hl, Ho. fold w1 in Hl, Ho.
  destruct (serialize_model_leaves model None base prefix false w false t Hc Ht)
    as (Hscp & Hstp & _). cbv zeta in Hscp, Hstp. fold w1 in Hscp, Hstp.
  cbn [negb orb] in Hscp.
  assert (Hpay : config_payload rt (effective_config model None) = []).
  { unfold config_payload, config_write_calls, effective_config, to_dict_of.
    by rewrite Hd. }
  rewrite Hpay in Hscp.
  assert (Hc1 : probe w1 (config_path base prefix) = Returned false).
  { rewrite (probe_present _ _ _ Hscp), Hl, Hloc.
    by rewrite bool_decide_eq_false_2 by (intros H; by apply H). }
  assert (Ht1 : exists t1, probe w1 (tensors_path base prefix) = Returned t1).
  { destruct (negb t || false) eqn:Hw.
    - destruct Hstp as [b Hb]. rewrite (probe_present _ _ _ Hb). eauto.
    - exists t. rewrite <- Ht. apply probe_agree; [done|by rewrite Hl|by rewrite Ho]. }
  destruct Ht1 as [t1 Ht1].
  destruct (serialize_model_leaves model' config' base prefix false w1 false t1
              Hc1 Ht1) as (_ & _ & rest & Hev).
  cbv zeta in Hev. split_and!; [done|done|].
  rewrite Hev. unfold config_events. cbn [negb orb].
  rewrite !elem_of_app, elem_of_cons. auto.
Qed.

End SavingFacts.

(** ** Locations of different prefixes *)

Lemma str_app_nil_l (u : string) : "" +:+ u = u.
Proof. reflexivity. Qed.

Lemma str_last_cons a x :
  str_last (String a x) = match x with "" => Some a | _ => str_last x end.
Proof. by destruct x. Qed.

Lemma str_app_empty s u : s +:+ u = "" -> u = "".
Proof. destruct s; [by rewrite str_app_nil_l|]. by rewrite str_app_cons. Qed.

Lemma str_last_app s u : u <> "" -> str_last (s +:+ u) = str_last u.
Proof.
  intros Hu. induction s as [|a s IH]; [reflexivity|].
  rewrite str_app_cons, str_last_cons.
  destruct (s +:+ u) eqn:E; [|exact IH].
  by apply str_app_empty in E.
Qed.

Lemma str_app_inv_tail s t u : s +:+ u = t +:+ u -> s = t.
Proof.
  revert t. induction s as [|a s IH]; intros [|b t] H.
  - done.
  - apply (f_equal String.length) in H.
    rewrite str_app_nil_l, str_app_cons in H. cbn [String.length] in H.
    rewrite str_length_app in H. lia.
  - apply (f_equal String.length) in H.
    rewrite str_app_nil_l, str_app_cons in H. cbn [String.length] in H.
    rewrite str_length_app in H. lia.
  - rewrite !str_app_cons in H. injection H as -> H. f_equal. by apply IH.
Qed.

Lemma tensors_path_ne_config_path base prefix base' prefix' :
  tensors_path base prefix <> config_path base' prefix'.
Proof.
  rewrite <- dir_prefix_tensors, <- dir_prefix_config. intros H.
  apply (f_equal str_last) in H. rewrite !str_last_app in H by done.
  discriminate H.
Qed.

Lemma tensors_path_inj base p q :
  tensors_path base p = tensors_path base q -> p = q.
Proof.
  unfold tensors_path. intros H.
  apply (inj (String.append base)) in H.
  apply (inj (String.append "/")) in H.
  by apply str_app_inv_tail in H.
Qed.

Lemma config_path_inj base p q :
  config_path base p = config_path base q -> p = q.
Proof.
  unfold config_path. intros H.
  apply (inj (String.append base)) in H.
  apply (inj (String.append "/")) in H.
  by apply str_app_inv_tail in H.
Qed.

Lemma is_artifact_disjoint base p q path :
  p <> q -> is_artifact base p path -> ~ is_artifact base q path.
Proof.
  intros Hpq [->| ->] [H|H].
  - by apply tensors_path_inj in H.
  - by apply tensors_path_ne_config_path in H.
  - symmetry in H. by apply tensors_path_ne_config_path in H.
  - by apply config_path_inj in H.
Qed.

Section LoadingFacts.
Context (rt : runtime).


(** [load_model] on a world whose tensor artifact is a complete write:
    the outcome is that of the config step, with the tensors bound. *)
Lemma load_model_on_saved base prefix mc cc dt w stored :
  store w !! tensors_path base prefix = Some (encode_tensors stored) ->
  Forall (fun nt => fits_record nt.1 nt.2) stored ->
  load_model rt base mc cc (Some prefix) dt w
  = match construct_model rt (config_path base prefix) mc cc
            (open_stream_rb (tensors_path base prefix) w).2 with
    | (Returned skeleton, w3) =>
        (Returned
           (Module_ (bind_tensors rt dt stored (named_tensors skeleton))
              (module_to_dict skeleton)), w3)
    | (Raised e, w3) => (Raised e, w3)
    end.
Proof.
  intros Hs Hfits. unfold load_model. cbv zeta.
  fold (tensors_path base prefix). fold (config_path base prefix).
  unfold io_bind at 1.
  assert (Hopen : open_stream_rb (tensors_path base prefix) w
                  = (Returned (encode_tensors stored),
                     (open_stream_rb (tensors_path base prefix) w).2)).
  { unfold open_stream_rb. by rewrite Hs. }
  rewrite Hopen at 1. unfold io_bind at 1. unfold TensorDeserializer.
  rewrite parse_directory_encode by done.
  unfold io_ret at 1. unfold io_bind.
  fold (construct_model rt (config_path base prefix) mc cc).
  destruct (construct_model rt (config_path base prefix) mc cc
              (open_stream_rb (tensors_path base prefix) w).2)
    as [[skeleton|e] w3]; [|reflexivity].
  unfold io_ret. by rewrite load_into_module_directory.
Qed.

(** X9. What a save without a derivable config leaves behind cannot be
    loaded back without a [config_class]: the save returns, the config
    artifact it created is empty, [json.loads] rejects it, and
    [load_model] ends in [ValueError] when the config location is a
    local path and in the not-found error of [open] otherwise. *)
Theorem save_without_config_cannot_be_loaded model base prefix force w c t
    mc dt :
  module_to_dict model = None ->
  json_loads rt [] = None ->
  NoDup (map fst (named_tensors model)) ->
  Forall (fun nt => fits_record nt.1 nt.2) (named_tensors model) ->
  probe w (config_path base prefix) = Returned c ->
  probe w (tensors_path base prefix) = Returned t ->
  negb c || force = true ->
  negb t || force = true ->
  let saved := serialize_model rt model None base (Some prefix) force w in
  saved.1 = Returned tt
  /\ (load_model rt base mc None (Some prefix) dt saved.2).1
     = Raised (if is_local w (config_path base prefix) then ValueError
               else StorageError NotFound).
Proof.
  intros Hd Hj Hnd Hfits Hc Ht Hcw Htw. cbv zeta.
  set (w1 := (serialize_model rt model None base (Some prefix) force w).2).
  destruct (serialize_model_keeps_adapter rt model None base prefix force w)
    as [Hl _]. cbv zeta in Hl. fold w1 in Hl.
  destruct (serialize_model_leaves rt model None base prefix force w c t Hc Ht)
    as (Hscp & _ & _). cbv zeta in Hscp. fold w1 in Hscp. rewrite Hcw in Hscp.
  assert (Hpay : config_payload rt (effective_config model None) = []).
  { unfold config_payload, config_write_calls, effective_config, to_dict_of.
    by rewrite Hd. }
  rewrite Hpay in Hscp.
  destruct (serialize_model_writes_tensors rt model None base prefix force
              w c t Hc Ht Htw) as (_ & _ & _ & Hok).
  cbv zeta in Hok. destruct (Hok Hnd) as [Hret Hstp]. fold w1 in Hstp.
  split; [exact Hret|].
  rewrite (load_model_on_saved base prefix mc None dt w1 _ Hstp Hfits).
  set (w2 := (open_stream_rb (tensors_path base prefix) w1).2).
  assert (Hw2 : store w2 = store w1 /\ is_local w2 = is_local w1).
  { subst w2. unfold open_stream_rb. rewrite Hstp. by split. }
  destruct Hw2 as [Hs2 Hl2].
  assert (Hrej : (model_from_json rt (config_path base prefix) mc w2).1
                 = Raised (if is_local w (config_path base prefix)
                           then ValueError else StorageError NotFound)).
  { rewrite (model_from_json_rejected rt _ mc w2 []).
    - rewrite Hs2, Hscp, Hl2, Hl.
      rewrite bool_decide_eq_true_2 by eauto. by rewrite andb_true_r.
    - unfold open_stream_rb. by rewrite Hs2, Hscp.
    - exact Hj. }
  unfold construct_model.
  destruct (model_from_json rt (config_path base prefix) mc w2) as [[sk|e] w3];
    cbn [fst] in Hrej; [discriminate|]. cbn [fst]. exact Hrej.
Qed.

(** X10. A [dict] given as config comes back as the keyword arguments
    of the model class: after a save with a dict [d] that writes both
    artifacts, [load_model] without a [config_class] calls the model
    class with [d] (the JSON codec reading back what it dumped) and
    returns the skeleton it builds with the saved tensors bound. *)
Theorem dict_config_round_trip model d base prefix force w c t mc dt skeleton :
  json_loads rt (json_dumps rt (JDict d)) = Some (JDict d) ->
  init_kwargs mc d = Returned skeleton ->
  NoDup (map fst (named_tensors model)) ->
  Forall (fun nt => fits_record nt.1 nt.2) (named_tensors model) ->
  probe w (config_path base prefix) = Returned c ->
  probe w (tensors_path base prefix) = Returned t ->
  negb c || force = true ->
  negb t || force = true ->
  let saved :=
    serialize_model rt model (Some (ConfigDict d)) base (Some prefix) force w in
  saved.1 = Returned tt
  /\ (load_model rt base mc None (Some prefix) dt saved.2).1
     = Returned
         (Module_ (bind_tensors rt dt (named_tensors model)
                     (named_tensors skeleton))
            (module_to_dict skeleton)).
Proof.
  intros Hj Hinit Hnd Hfits Hc Ht Hcw Htw. cbv zeta.
  set (w1 := (serialize_model rt model (Some (ConfigDict d)) base (Some prefix)
                force w).2).
  destruct (serialize_model_leaves rt model (Some (ConfigDict d)) base prefix
              force w c t Hc Ht) as (Hscp & _ & _).
  cbv zeta in Hscp. fold w1 in Hscp. rewrite Hcw in Hscp.
  assert (Hpay : config_payload rt (effective_config model (Some (ConfigDict d)))
                 = json_dumps rt (JDict d)).
  { unfold config_payload, config_write_calls, effective_config, to_dict_of.
    cbn [concat]. by rewrite app_nil_r. }
  rewrite Hpay in Hscp.
  destruct (serialize_model_writes_tensors rt model (Some (ConfigDict d)) base
              prefix force w c t Hc Ht Htw) as (_ & _ & _ & Hok).
  cbv zeta in Hok. destruct (Hok Hnd) as [Hret Hstp]. fold w1 in Hstp.
  split; [exact Hret|].
  rewrite (load_model_on_saved base prefix mc None dt w1 _ Hstp Hfits).
  set (w2 := (open_stream_rb (tensors_path base prefix) w1).2).
  assert (Hs2 : store w2 = store w1).
  { subst w2. unfold open_stream_rb. by rewrite Hstp. }
  unfold construct_model.
  pose proof (model_from_json_run rt (config_path base prefix) mc w2) as Hrun.
  cbv zeta in Hrun. rewrite Hrun. unfold open_stream_rb.
  rewrite Hs2, Hscp, Hj, Hinit. reflexivity.
Qed.

End LoadingFacts.

(** ** [hf_main]: the output prefix and the validation *)

Lemma str_drop_last_snoc s c :
  str_last s = Some c -> s = str_drop_last s +:+ String c "".
Proof.
  induction s as [|a s IH]; [discriminate|].
  rewrite str_last_cons. destruct s as [|b s].
  - intros [= ->]. reflexivity.
  - intros H. specialize (IH H).
    change (str_drop_last (String a (String b s)))
      with (String a (str_drop_last (String b s))).
    rewrite str_app_cons. by rewrite <- IH.
Qed.

Lemma str_last_None s : str_last s = None -> s = "".
Proof.
  induction s as [|a s IH]; [done|].
  rewrite str_last_cons. destruct s; [discriminate|].
  intros H. by specialize (IH H).
Qed.

Lemma lookup_tensor_map (f : tensor -> tensor) l name :
  lookup_tensor name (map (fun nt => (nt.1, f nt.2)) l)
  = f <$> lookup_tensor name l.
Proof.
  unfold lookup_tensor. induction l as [|[n t] l IH]; [reflexivity|].
  cbn [map List.find fst snd]. by destruct (bool_decide (n = name)).
Qed.

Section ValidationFacts.
Context (rt : runtime).

(** X11. Line 253 removes exactly one trailing ["/"]: for a non-empty
    prefix the result is the prefix without its last character when
    that character is ["/"], and the prefix itself otherwise, so of
    two trailing separators one is kept; the empty prefix makes
    [hf_main] raise [IndexError] before it loads or touches
    anything. *)
Theorem output_prefix_loses_one_separator :
  (forall s,
      match strip_output_prefix s with
      | Returned r =>
          s <> ""
          /\ (s = r +:+ "/" \/ (s = r /\ str_last s <> Some "/"%char))
      | Raised e => e = IndexError /\ s = ""
      end)
  /\ (forall b, strip_output_prefix (b +:+ "//") = Returned (b +:+ "/"))
  /\ (forall tf inp v f w,
        hf_main rt tf (Args inp "" v f) w = (Raised IndexError, w)).
Proof.
  split_and!.
  - intros s. unfold strip_output_prefix.
    destruct (str_last s) as [c|] eqn:E.
    + assert (Hs : s <> "") by (by intros ->).
      destruct (decide (c = "/"%char)) as [->|Hc].
      * split; [done|]. left. by apply str_drop_last_snoc.
      * split; [done|]. right. split; [done|]. congruence.
    + split; [done|]. by apply str_last_None.
  - intros b. change "//" with ("/" +:+ "/"). rewrite <- str_app_assoc.
    apply strip_output_prefix_slash.
  - reflexivity.
Qed.


Lemma bind_tensors_cast stored d :
  NoDup (map fst stored) ->
  forall slots part,
    (forall nt, nt ∈ part -> nt ∈ stored) ->
    map fst slots = map fst part ->
    bind_tensors rt (Some d) stored slots
    = map (fun nt => (nt.1, tensor_cast rt d nt.2)) part.
Proof.
  intros Hnd. unfold bind_tensors.
  induction slots as [|[n t0] slots IH]; intros [|[n' t] part] Hsub Hnames;
    try discriminate; [reflexivity|].
  cbn [map fst snd] in *. injection Hnames as -> Hnames.
  rewrite (lookup_tensor_elem_of stored n' t Hnd) by (apply Hsub; left).
  f_equal. apply IH; [|done]. intros nt Hnt. apply Hsub. by right.
Qed.

Lemma compare_parameters_cast params d :
  NoDup (map fst params) ->
  forall part,
    (forall nt, nt ∈ part -> nt ∈ params) ->
    compare_parameters rt part
      (map (fun nt => (nt.1, tensor_cast rt d nt.2)) params)
    = if forallb (fun np => allclose rt np.2 (tensor_cast rt d np.2)) part
      then Returned tt else Raised AssertionError.
Proof.
  intros Hnd. induction part as [|[name p] part IH]; intros Hsub;
    [reflexivity|].
  cbn [compare_parameters forallb fst snd].
  pose proof (lookup_tensor_map (tensor_cast rt d) params name) as Hl.
  rewrite (lookup_tensor_elem_of params name p Hnd) in Hl by (apply Hsub; left).
  unfold lookup_tensor in Hl.
  destruct (List.find _ (map _ params)) as [[n2 p2]|]; [|discriminate].
  cbn in Hl. injection Hl as ->.
  destruct (allclose rt p (tensor_cast rt d p)); [|reflexivity].
  apply IH. intros nt Hnt. apply Hsub. by right.
Qed.

(** X13. [hf_main] with [--validate], end to end: when the config and
    the model are obtained, the save writes the tensor artifact and the
    config step of the reload yields a skeleton with the model's
    parameter names, the run returns exactly when every parameter is
    [allclose] to its own float16 cast, and ends in [AssertionError]
    otherwise. *)
Theorem hf_main_validation tf a w b cfg model c t skeleton w3 :
  strip_output_prefix (output_prefix a) = Returned b ->
  from_pretrained (AutoConfig tf) (store w) (FromLocation (input_directory a))
  = Returned cfg ->
  model_from_pretrained tf (input_directory a) cfg Float16 = Returned model ->
  validate a = true ->
  NoDup (map fst (named_tensors model)) ->
  Forall (fun nt => fits_record nt.1 nt.2) (named_tensors model) ->
  probe w (config_path b "model") = Returned c ->
  probe w (tensors_path b "model") = Returned t ->
  negb t || force a = true ->
  let saved :=
    serialize_model rt model (Some (ConfigObject cfg)) b (Some "model")
      (force a) w in
  construct_model rt (config_path b "model") (AutoModelForCausalLM tf)
    (Some (AutoConfig tf)) (open_stream_rb (tensors_path b "model") saved.2).2
  = (Returned skeleton, w3) ->
  map fst (named_tensors skeleton) = map fst (named_tensors model) ->
  hf_main rt tf a w
  = (if forallb (fun np => allclose rt np.2 (tensor_cast rt Float16 np.2))
          (named_tensors model)
     then Returned tt else Raised AssertionError, w3).
Proof.
  intros Hb Hcfg Hmodel Hv Hnd Hfits Hc Ht Htw. cbv zeta. intros Hsk Hnames.
  destruct (serialize_model_writes_tensors rt model (Some (ConfigObject cfg)) b
              "model" (force a) w c t Hc Ht Htw) as (_ & _ & _ & Hok).
  cbv zeta in Hok. destruct (Hok Hnd) as [Hret Hstp]. clear Hok.
  change (serialize_model rt model (Some (ConfigObject cfg)) b (Some "model")
            (force a))
    with (serialize_model rt model (Some (ConfigObject cfg)) b None (force a))
    in Hret, Hstp.
  pose proof (load_model_on_saved rt b "model" (AutoModelForCausalLM tf)
                (Some (AutoConfig tf)) (Some Float16) _ _ Hstp Hfits) as Hload.
  change (serialize_model rt model (Some (ConfigObject cfg)) b (Some "model")
            (force a))
    with (serialize_model rt model (Some (ConfigObject cfg)) b None (force a))
    in Hsk.
  rewrite Hsk in Hload.
  change (load_model rt b (AutoModelForCausalLM tf) (Some (AutoConfig tf))
            (Some "model") (Some Float16))
    with (load_model rt b (AutoModelForCausalLM tf) (Some (AutoConfig tf))
            None (Some Float16)) in Hload.
  unfold hf_main, io_bind, lift. rewrite Hb, Hv. cbv beta iota zeta.
  rewrite Hcfg. cbv beta iota zeta. rewrite Hmodel. cbv beta iota zeta.
  destruct (serialize_model rt model (Some (ConfigObject cfg)) b None
              (force a) w) as [r w1].
  cbn [fst snd] in Hret, Hload. subst r. cbv beta iota zeta.
  rewrite Hload. cbv beta iota zeta. cbn [named_tensors].
  rewrite (bind_tensors_cast _ Float16 Hnd _ (named_tensors model)) by done.
  by rewrite compare_parameters_cast.
Qed.

End ValidationFacts.

(** ** [df_main] *)

Lemma keeps_silent {A} (P : string -> Prop) (m : io A) :
  (forall w, (m w).2 = w) -> keeps P m.
Proof. intros H w p _. by rewrite H. Qed.

Lemma keeps_bind {A B} (P : string -> Prop) (m : io A) (k : A -> io B) :
  keeps P m -> (forall a, keeps P (k a)) -> keeps P (io_bind m k).
Proof.
  intros Hm Hk w p Hp. unfold io_bind. specialize (Hm w p Hp).
  destruct (m w) as [[a|e] w1]; cbn [snd] in *; [|done].
  by rewrite (Hk a w1 p Hp).
Qed.

Lemma keeps_read_only {A} (P : string -> Prop) (m : io A) :
  read_only m -> keeps P m.
Proof. intros H w p _. destruct (H w) as (Hs & _). by rewrite Hs. Qed.

Section DiffusersFacts.
Context (rt : runtime).

(** A save where both probes answer [True] returns and leaves the
    world as it was, the trace apart. *)
Lemma serialize_model_present model config base prefix w :
  probe w (config_path base prefix) = Returned true ->
  probe w (tensors_path base prefix) = Returned true ->
  let run := serialize_model rt model config base (Some prefix) false in
  (run w).1 = Returned tt
  /\ store (run w).2 = store w
  /\ is_local (run w).2 = is_local w
  /\ on_missing (run w).2 = on_missing w.
Proof.
  intros Hc Ht. cbv zeta.
  destruct (serialize_model_skips_tensors rt model config base prefix false
              w true true Hc Ht eq_refl) as (Hrun & _).
  cbv zeta in Hrun. rewrite Hrun. by split_and!.
Qed.

(** X14. [df_main] never overwrites: its three saves run with
    [force=False] whatever [args.force] is, so when the probes find all
    six artifacts of the prefixes ["encoder"], ["vae"] and ["unet"],
    and the tokenizer and scheduler savers and the closing pipeline run
    leave those locations alone, every one of the six artifacts holds
    after [df_main] what it held before. *)
Theorem df_main_never_overwrites df a w pl :
  pipeline_from_pretrained df (store w) (input_directory a) = Returned pl ->
  (forall p, is_pipeline_artifact (output_prefix a) p ->
             probe w p = Returned true) ->
  keeps (is_pipeline_artifact (output_prefix a))
    (tokenizer_save_pretrained df (output_prefix a)) ->
  keeps (is_pipeline_artifact (output_prefix a))
    (scheduler_save_pretrained df (output_prefix a)) ->
  (forall e v u,
      keeps (is_pipeline_artifact (output_prefix a)) (run_pipeline df e v u)) ->
  forall p,
    is_pipeline_artifact (output_prefix a) p ->
    store (df_main rt df a w).2 !! p = store w !! p.
Proof.
  intros Hpl Hprobe Htok Hsched Hrun p Hp.
  set (op := output_prefix a) in *.
  assert (Hart : forall prefix,
             prefix = "encoder" \/ prefix = "vae" \/ prefix = "unet" ->
             is_pipeline_artifact op (config_path op prefix)
             /\ is_pipeline_artifact op (tensors_path op prefix)).
  { unfold is_pipeline_artifact, is_artifact.
    intros prefix [->|[->| ->]]; auto 10. }
  assert (Hstep : forall model config prefix w0,
             prefix = "encoder" \/ prefix = "vae" \/ prefix = "unet" ->
             store w0 = store w -> is_local w0 = is_local w ->
             on_missing w0 = on_missing w ->
             let run := serialize_model rt model config op (Some prefix) false in
             (run w0).1 = Returned tt
             /\ store (run w0).2 = store w
             /\ is_local (run w0).2 = is_local w
             /\ on_missing (run w0).2 = on_missing w).
  { intros model config prefix w0 Hpre Hs Hl Ho. cbv zeta.
    destruct (Hart prefix Hpre) as [Hcp Htp].
    destruct (serialize_model_present model config op prefix w0)
      as (Hr & Hs' & Hl' & Ho').
    - rewrite (probe_ext w0 w) by done. by apply Hprobe.
    - rewrite (probe_ext w0 w) by done. by apply Hprobe.
    - cbv zeta in *. split_and!; congruence. }
  unfold df_main. cbv zeta. fold op.
  unfold io_bind at 1. rewrite Hpl.
  unfold io_bind at 1.
  destruct (Hstep (text_encoder pl) (Some (ConfigObject (text_encoder_config pl)))
              "encoder" w) as (Hr1 & Hs1 & Hl1 & Ho1); [auto..|].
  cbv zeta in *.
  destruct (serialize_model rt (text_encoder pl) _ op (Some "encoder") false w)
    as [r1 w1]. cbn [fst snd] in *. subst r1.
  unfold io_bind at 1.
  destruct (Hstep (vae pl) None "vae" w1) as (Hr2 & Hs2 & Hl2 & Ho2); [auto..|].
  cbv zeta in *.
  destruct (serialize_model rt (vae pl) None op (Some "vae") false w1)
    as [r2 w2]. cbn [fst snd] in *. subst r2.
  unfold io_bind at 1.
  destruct (Hstep (unet pl) None "unet" w2) as (Hr3 & Hs3 & Hl3 & Ho3); [auto..|].
  cbv zeta in *.
  destruct (serialize_model rt (unet pl) None op (Some "unet") false w2)
    as [r3 w3]. cbn [fst snd] in *. subst r3.
  rewrite <- Hs3.
  match goal with
  | |- store (?rest w3).2 !! p = _ =>
      assert (Hk : keeps (is_pipeline_artifact op) rest)
  end.
  { apply keeps_bind; [exact Htok|]. intros _.
    apply keeps_bind; [exact Hsched|]. intros _.
    destruct (validate a); [|by apply keeps_silent].
    apply keeps_bind; [apply keeps_read_only, read_only_load_model|]. intros v.
    apply keeps_bind; [apply keeps_read_only, read_only_load_model|]. intros u.
    apply keeps_bind; [apply keeps_read_only, read_only_load_model|]. intros e.
    apply Hrun. }
  by apply Hk.
Qed.

End DiffusersFacts.

(** ** Loads that cannot succeed *)

Section MoreFacts.
Context (rt : runtime).

Lemma io_bind_raised {A B} (m : io A) (k : A -> io B) w e :
  (m w).1 = Raised e -> (io_bind m k w).1 = Raised e.
Proof.
  intros H. unfold io_bind. destruct (m w) as [[a|x] w1]; cbn [fst] in *;
    [discriminate|by injection H as ->].
Qed.

(** A load without a [config_class] from a location whose config
    artifact is empty never returns. *)
Lemma load_model_empty_config base prefix mc dt w :
  json_loads rt [] = None ->
  store w !! config_path base prefix = Some [] ->
  exists e, (load_model rt base mc None (Some prefix) dt w).1 = Raised e.
Proof.
  intros Hj Hs. unfold load_model. cbv zeta.
  fold (tensors_path base prefix). fold (config_path base prefix).
  unfold io_bind at 1.
  pose proof (read_only_open_stream_rb (tensors_path base prefix) w)
    as (Hs1 & _).
  destruct (open_stream_rb (tensors_path base prefix) w) as [[s|e] w1];
    [|eauto]. cbn [snd] in Hs1.
  unfold io_bind at 1. unfold TensorDeserializer.
  destruct (parse_directory (length s) 0 s) as [rs|e]; [|eauto].
  unfold io_ret at 1. unfold io_bind.
  pose proof (model_from_json_rejected rt (config_path base prefix) mc w1 [])
    as Hrej.
  destruct (model_from_json rt (config_path base prefix) mc w1) as [[sk|e] w2];
    [|eauto].
  exfalso. cbn [fst] in Hrej. discriminate Hrej; [|exact Hj].
  unfold open_stream_rb. by rewrite Hs1, Hs.
Qed.

(** X15. [df_main --validate] cannot return when the vae has no
    [to_dict]: the save of the vae finds no config artifact, creates an
    empty one, and (the savers of the tokenizer and the scheduler
    leaving the artifacts alone) the reload of the vae, which decodes
    that artifact as JSON, raises. *)
Theorem df_main_validation_needs_vae_config df a w pl :
  pipeline_from_pretrained df (store w) (input_directory a) = Returned pl ->
  module_to_dict (vae pl) = None ->
  json_loads rt [] = None ->
  validate a = true ->
  probe w (config_path (output_prefix a) "vae") = Returned false ->
  keeps (is_pipeline_artifact (output_prefix a))
    (tokenizer_save_pretrained df (output_prefix a)) ->
  keeps (is_pipeline_artifact (output_prefix a))
    (scheduler_save_pretrained df (output_prefix a)) ->
  exists e, (df_main rt df a w).1 = Raised e.
Proof.
  intros Hpl Hd Hj Hv Hc Htok Hsched.
  set (op := output_prefix a) in *.
  pose (cp := config_path op "vae").
  assert (Hcp : is_pipeline_artifact op cp).
  { right. left. by right. }
  assert (Hart : is_artifact op "vae" cp) by (by right).
  unfold df_main. cbv zeta. fold op. rewrite Hv.
  unfold io_bind at 1. rewrite Hpl.
  (* the save of the text encoder *)
  unfold io_bind at 1.
  destruct (confined_serialize_model rt (text_encoder pl)
              (Some (ConfigObject (text_encoder_config pl))) op "encoder" false w)
    as (_ & _ & Hfr1 & Hl1 & Ho1).
  specialize (Hfr1 cp (is_artifact_disjoint op "vae" "encoder" cp
                         ltac:(discriminate) Hart)).
  destruct (serialize_model rt (text_encoder pl) _ op (Some "encoder") false w)
    as [[[]|e] w1]; [|eauto]. cbn [snd] in *.
  assert (Hc1 : probe w1 cp = Returned false).
  { rewrite <- Hc. apply probe_agree; [done|by rewrite Hl1|by rewrite Ho1]. }
  (* the save of the vae *)
  unfold io_bind at 1.
  assert (Hs2 : forall r w2,
             serialize_model rt (vae pl) None op (Some "vae") false w1 = (r, w2) ->
             (exists e, r = Raised e) \/ store w2 !! cp = Some []).
  { intros r w2 Hrun.
    destruct (probe w1 (tensors_path op "vae")) as [t|e] eqn:Ht.
    - right.
      destruct (serialize_model_leaves rt (vae pl) None op "vae" false w1
                  false t Hc1 Ht) as (Hscp & _).
      cbv zeta in Hscp. rewrite Hrun in Hscp. cbn [snd negb orb] in Hscp.
      unfold cp. rewrite Hscp. unfold config_payload, config_write_calls, effective_config,
        to_dict_of. by rewrite Hd.
    - left.
      destruct (serialize_model_probe_raises rt (vae pl) None op "vae" false w1 e)
        as (Hr & _); [right; eauto|].
      cbv zeta in Hr. rewrite Hrun in Hr. eauto. }
  destruct (serialize_model rt (vae pl) None op (Some "vae") false w1)
    as [r2 w2] eqn:Hrun2.
  destruct (Hs2 r2 w2 eq_refl) as [[e ->]|Hst2]; [eauto|].
  destruct r2 as [[]|e]; [|eauto].
  (* the save of the unet *)
  unfold io_bind at 1.
  destruct (confined_serialize_model rt (unet pl) None op "unet" false w2)
    as (_ & _ & Hfr3 & _).
  specialize (Hfr3 cp (is_artifact_disjoint op "vae" "unet" cp
                         ltac:(discriminate) Hart)).
  destruct (serialize_model rt (unet pl) None op (Some "unet") false w2)
    as [[[]|e] w3]; [|eauto]. cbn [snd] in *.
  (* the savers *)
  unfold io_bind at 1. specialize (Htok w3 cp Hcp).
  destruct (tokenizer_save_pretrained df op w3) as [[[]|e] w4]; [|eauto].
  cbn [snd] in *.
  unfold io_bind at 1. specialize (Hsched w4 cp Hcp).
  destruct (scheduler_save_pretrained df op w4) as [[[]|e] w5]; [|eauto].
  cbn [snd] in *.
  (* the reload of the vae *)
  destruct (load_model_empty_config op "vae" (AutoencoderKL df) None w5 Hj)
    as [e He].
  { unfold cp in *. congruence. }
  exists e. by apply io_bind_raised.
Qed.

(** X16. A config artifact that cannot be opened is not retried: when
    the config location holds nothing and the adapter signals an error
    for it, both config branches of [load_model] end with that error
    after the one failed opening; neither the second [from_pretrained]
    nor the local [open] is attempted. *)
Theorem unopened_config_is_not_retried uri mc cc w e :
  store w !! uri = None ->
  on_missing w uri = Some e ->
  (model_from_config_class uri mc cc w).1 = Raised (StorageError e)
  /\ events_of (model_from_config_class uri mc cc) w = [EvOpenRead uri]
  /\ (model_from_json rt uri mc w).1 = Raised (StorageError e)
  /\ events_of (model_from_json rt uri mc) w = [EvOpenRead uri].
Proof.
  intros Hs Hm.
  assert (Hopen : open_stream_rb uri w
                  = (Raised (StorageError e), log (EvOpenRead uri) w)).
  { unfold open_stream_rb. by rewrite Hs, Hm. }
  assert (H1 : model_from_config_class uri mc cc w
               = (Raised (StorageError e), log (EvOpenRead uri) w)).
  { by rewrite model_from_config_class_run, Hopen. }
  assert (H2 : model_from_json rt uri mc w
               = (Raised (StorageError e), log (EvOpenRead uri) w)).
  { pose proof (model_from_json_run rt uri mc w) as Hrun. cbv zeta in Hrun.
    by rewrite Hrun, Hopen. }
  split_and!.
  - by rewrite H1.
  - apply events_of_intro. by rewrite H1.
  - by rewrite H2.
  - apply events_of_intro. by rewrite H2.
Qed.

End MoreFacts.

(** * Further examples *)


Lemma load_model_fails_before_config_witness :
  (load_model stub_runtime "out" example_class None (Some "model") None
     empty_disk).1 = Raised (StorageError NotFound)
  /\ events_of (load_model stub_runtime "out" example_class None (Some "model")
                  None) empty_disk
     = [EvOpenRead "out/model.tensors"].
Proof.
  apply (load_model_fails_before_config stub_runtime "out" example_class None
           "model" None empty_disk NotFound); vm_compute; reflexivity.
Defined.


Lemma later_save_keeps_first_witness :
  let w1 :=
    (serialize_model stub_runtime example_model (Some (ConfigDict [])) "out"
       (Some "model") false empty_bucket).2 in
  store (serialize_model stub_runtime example_skeleton None "out" (Some "model")
           false w1).2 !! "out/model.tensors"
  = Some (encode_tensors (named_tensors example_model)).
Proof.
  cbv zeta.
  pose proof (later_save_keeps_first stub_runtime example_model
                (Some (ConfigDict [])) example_skeleton None "out" "model"
                false empty_bucket false false example_names_distinct) as H.
  destruct H as (_ & _ & _ & Hkept); [vm_compute; reflexivity..| | |].
  - right. vm_compute. discriminate.
  - right. vm_compute. discriminate.
  - exact Hkept.
Defined.

Lemma empty_config_reopened_by_later_save_witness :
  let w1 :=
    (serialize_model stub_runtime example_model None "out" (Some "model") false
       empty_bucket).2 in
  EvOpenWrite "out/model-config.json"
    ∈ events_of (serialize_model stub_runtime example_model None "out"
                   (Some "model") false) w1.
Proof.
  cbv zeta.
  pose proof (empty_config_reopened_by_later_save stub_runtime example_model
                example_model None "out" "model" empty_bucket false eq_refl)
    as H.
  destruct H as (_ & _ & Hopen); [vm_compute; reflexivity..|].
  exact Hopen.
Defined.


Lemma save_without_config_cannot_be_loaded_witness :
  let saved :=
    serialize_model stub_runtime example_model None "out" (Some "model") false
      empty_bucket in
  saved.1 = Returned tt
  /\ (load_model stub_runtime "out" example_class None (Some "model") None
        saved.2).1 = Raised (StorageError NotFound).
Proof.
  cbv zeta.
  apply (save_without_config_cannot_be_loaded stub_runtime example_model "out"
           "model" false empty_bucket false false example_class None eq_refl
           eq_refl example_names_distinct example_fits);
    vm_compute; reflexivity.
Defined.

Lemma dict_config_round_trip_witness :
  let saved :=
    serialize_model stub_runtime example_model (Some (ConfigDict [])) "out"
      (Some "model") false empty_bucket in
  (load_model stub_runtime "out" example_class None (Some "model")
     (Some Float16) saved.2).1
  = Returned
      (Module_ [("w1", Tensor Float16 [1] [x00; x00; x80; x3f]);
                ("b1", Tensor Float16 [1] [x00; x00; x00; x00])] None).
Proof.
  cbv zeta.
  pose proof (dict_config_round_trip stub_runtime example_model [] "out"
                "model" false empty_bucket false false example_class
                (Some Float16) example_skeleton eq_refl eq_refl
                example_names_distinct example_fits) as H.
  destruct H as (_ & Hload); [vm_compute; reflexivity..|].
  rewrite Hload. vm_compute. reflexivity.
Defined.

Lemma hf_main_validation_witness :
  (hf_main stub_runtime example_transformers
     (Args "hub/model" "out/" true false) empty_bucket).1 = Returned tt.
Proof.
  pose proof (hf_main_validation stub_runtime example_transformers
                (Args "hub/model" "out/" true false) empty_bucket "out"
                (ConfigObj ∅ None) example_model false false example_skeleton
                (construct_model stub_runtime (config_path "out" "model")
                   example_class (Some lenient_config)
                   (open_stream_rb (tensors_path "out" "model")
                      (serialize_model stub_runtime example_model
                         (Some (ConfigObject (ConfigObj ∅ None))) "out"
                         (Some "model") false empty_bucket).2).2).2) as H.
  cbv zeta in H. rewrite H.
  - vm_compute. reflexivity.
  - vm_compute. reflexivity.
  - reflexivity.
  - reflexivity.
  - reflexivity.
  - exact example_names_distinct.
  - exact example_fits.
  - vm_compute. reflexivity.
  - vm_compute. reflexivity.
  - reflexivity.
  - vm_compute. reflexivity.
  - reflexivity.
Defined.

Lemma pipeline_disk_probes p :
  is_pipeline_artifact "out" p -> probe pipeline_disk p = Returned true.
Proof.
  intros [[->| ->]|[[->| ->]|[->| ->]]]; vm_compute; reflexivity.
Defined.

Lemma df_main_never_overwrites_witness :
  store (df_main stub_runtime example_diffusers (Args "hub/sd" "out" true true)
           pipeline_disk).2 !! "out/vae.tensors"
  = store pipeline_disk !! "out/vae.tensors".
Proof.
  apply (df_main_never_overwrites stub_runtime example_diffusers
           (Args "hub/sd" "out" true true) pipeline_disk example_pipeline).
  - reflexivity.
  - exact pipeline_disk_probes.
  - by apply keeps_silent.
  - by apply keeps_silent.
  - intros e v u. by apply keeps_silent.
  - right. left. left. reflexivity.
Defined.

Lemma df_main_validation_needs_vae_config_witness :
  exists e,
    (df_main stub_runtime example_diffusers (Args "hub/sd" "out" true false)
       empty_bucket).1 = Raised e.
Proof.
  apply (df_main_validation_needs_vae_config stub_runtime example_diffusers
           (Args "hub/sd" "out" true false) empty_bucket example_pipeline).
  - reflexivity.
  - reflexivity.
  - reflexivity.
  - reflexivity.
  - vm_compute. reflexivity.
  - by apply keeps_silent.
  - by apply keeps_silent.
Defined.

Lemma unopened_config_is_not_retried_witness :
  (model_from_json stub_runtime "out/model-config.json" example_class
     empty_disk).1 = Raised (StorageError NotFound)
  /\ (model_from_config_class "out/model-config.json" example_class
        lenient_config empty_disk).1 = Raised (StorageError NotFound).
Proof.
  pose proof (unopened_config_is_not_retried stub_runtime
                "out/model-config.json" example_class lenient_config empty_disk
                NotFound eq_refl eq_refl) as (H1 & _ & H2 & _).
  split; [exact H2|exact H1].
Defined.

Lemma output_prefix_loses_one_separator_witness :
  strip_output_prefix "out//" = Returned "out/"
  /\ hf_main stub_runtime example_transformers
       (Args "hub/model" "" true false) empty_bucket
     = (Raised IndexError, empty_bucket).
Proof.
  destruct (output_prefix_loses_one_separator stub_runtime) as (_ & Hone & Hempty).
  split; [exact (Hone "out")|apply Hempty].
Defined.

